(** * msibi-flow: parameter-space expansion and optimisation-problem assembly

    A shallow embedding of [src/init.py] (the declaration and expansion of the
    parameter space) and of [src/project.py] (the [completed] label and the
    [optimize] operation), followed by the properties of the two modules.

    Python values are an inductive type; the statepoint and the job document
    are finite maps from names to values; the body of [optimize] is written in
    an error monad ([result]) for the parts that only read, and in a state and
    error monad ([M]) over the job document for the parts that write. *)

From stdpp Require Import base option list strings gmap.
From Stdlib Require Import ZArith Ascii.

Set Warnings "-register-all".

Open Scope string_scope.
Open Scope Z_scope.
Open Scope list_scope.

(** ** Python values *)

(** Floats are never computed with by this code, only passed on: [VFloat m e]
    is the literal [m * 10^e].  [VCall f args] is the result of calling the
    external function [f] (the [mie] and [morse] potentials of msibi), kept
    symbolic. *)
Inductive value : Type :=
| VNone
| VBool (b : bool)
| VInt (n : Z)
| VFloat (m e : Z)
| VStr (s : string)
| VList (l : list value)
| VDict (d : list (string * value))
| VCall (f : string) (args : list value).

(** The exceptions the two modules can raise.  [AttributeError on a] is a
    failed attribute read [on.a]; [RunnerError] is whatever the external
    optimiser raises. *)
Inductive exn : Type :=
| KeyError (k : string)
| AttributeError (on a : string)
| UnboundLocalError (x : string)
| TypeError (msg : string)
| RunnerError (msg : string).

Inductive result (A : Type) : Type :=
| Ok (a : A)
| Raise (e : exn).
Arguments Ok {A} a.
Arguments Raise {A} e.

Definition result_bind {A B} (f : A → result B) (r : result A) : result B :=
  match r with
  | Ok a => f a
  | Raise e => Raise e
  end.

#[export] Instance result_mret : MRet result := @Ok.
#[export] Instance result_mbind : MBind result := @result_bind.

Definition is_ok {A} (r : result A) : bool :=
  match r with Ok _ => true | Raise _ => false end.

(** Monadic left fold: the body of a [for] loop threaded over the items. *)
Fixpoint foldM {A B} (f : A → B → result A) (a : A) (l : list B) : result A :=
  match l with
  | [] => Ok a
  | b :: l' => a' ← f a b; foldM f a' l'
  end.

(** ** Dictionaries, subscripts, iteration *)

(** A nested dict keeps its items in insertion order. *)
Fixpoint dict_get (k : string) (d : list (string * value)) : option value :=
  match d with
  | [] => None
  | (k', v) :: d' => if String.eqb k k' then Some v else dict_get k d'
  end.

(** [v[k]] for a string key. *)
Definition py_getitem (v : value) (k : string) : result value :=
  match v with
  | VDict d =>
      match dict_get k d with
      | Some x => Ok x
      | None => Raise (KeyError k)
      end
  | _ => Raise (TypeError "subscript")
  end.

(** [k in v.keys()]. *)
Definition py_has_key (v : value) (k : string) : result bool :=
  match v with
  | VDict d => Ok (bool_decide (is_Some (dict_get k d)))
  | _ => Raise (AttributeError "pair" "keys")
  end.

(** The items a [for] loop over [v] visits. *)
Definition py_iter (v : value) : result (list value) :=
  match v with
  | VList l => Ok l
  | VDict d => Ok (map (λ kv, VStr kv.1) d)
  | VStr s => Ok (map (λ c, VStr (String c EmptyString)) (String.list_ascii_of_string s))
  | _ => Raise (TypeError "iter")
  end.

(** [v == s] for a string literal [s]. *)
Definition py_eq_str (v : value) (s : string) : bool :=
  match v with
  | VStr t => String.eqb t s
  | _ => false
  end.

(** [v is None]. *)
Definition py_is_none (v : value) : bool :=
  match v with VNone => true | _ => false end.

(** Truth value of [v] (what a condition or a label sees). *)
Definition py_truthy (v : value) : bool :=
  match v with
  | VNone => false
  | VBool b => b
  | VInt n => negb (n =? 0)
  | VFloat m _ => negb (m =? 0)
  | VStr s => negb (String.eqb s "")
  | VList l => match l with [] => false | _ => true end
  | VDict d => match d with [] => false | _ => true end
  | VCall _ _ => true
  end.

(** ** [src/init.py] *)

(** [OrderedDict.__setitem__]: replace in place, or append. *)
Fixpoint od_set {V} (k : string) (v : V) (d : list (string * V)) : list (string * V) :=
  match d with
  | [] => [(k, v)]
  | (k', v') :: d' => if String.eqb k k' then (k, v) :: d' else (k', v') :: od_set k v d'
  end.

Definition od_keys {V} (d : list (string * V)) : list string := map fst d.
Definition od_values {V} (d : list (string * V)) : list V := map snd d.

(** [itertools.product] over the lists [ls]: the rightmost list advances fastest; no list at
    all gives the single empty combination. *)
Fixpoint product {A} (ls : list (list A)) : list (list A) :=
  match ls with
  | [] => [[]]
  | l :: rest => flat_map (λ x, map (cons x) (product rest)) l
  end.

(** The assignments of [get_parameters], in program order. *)
Definition parameter_assignments : list (string * list value) :=
  [ ("potential_cutoff", [VFloat 5 0]);
    ("num_rdf_points", [VInt 101]);
    ("num_rdf_frames", [VInt 5]);
    ("smooth_rdf", [VBool true]);
    ("rdf_exclude_bonded", [VBool false]);
    ("r_switch", [VNone]);
    ("integrator", []);
    ("integrator_kwargs", []);
    ("dt", [VFloat 1 (-3)]);
    ("gsd_period", [VInt 1000]);
    ("initial_potential", [VStr "mie"]);
    ("iterations", [VInt 20]);
    ("n_steps", [VFloat 1 6]);
    ("states", [VList [VDict []; VDict []; VDict []]]);
    ("pairs", [VList [VDict []; VDict []; VDict []]]);
    ("bonds", [VList [VDict []; VDict []; VDict []]]);
    ("angles", [VList [VDict []; VDict []; VDict []]]) ].

(** The last line of [get_parameters], for any ordered mapping. *)
Definition expand (parameters : list (string * list value))
  : list string * list (list value) :=
  (od_keys parameters, product (od_values parameters)).

Definition parameters : list (string * list value) :=
  foldl (λ d kv, od_set kv.1 kv.2 d) [] parameter_assignments.

Definition get_parameters : list string * list (list value) :=
  expand parameters.

(** [dict(zip(param_names, params))]: [zip] stops at the shorter list, a
    later item overwrites an earlier one with the same key. *)
Definition dict_zip (param_names : list string) (params : list value)
  : gmap string value :=
  foldl (λ m kv, <[kv.1 := kv.2]> m) ∅ (zip param_names params).

(** What [main] asks of the workspace store, in order. *)
Inductive init_event : Type :=
| EOpenInit (statepoint : gmap string value)
| EWriteStatepoints.

Definition main_of (gp : list string * list (list value)) : result (list init_event) :=
  let '(param_names, param_combinations) := gp in
  Ok (map (λ params, EOpenInit (dict_zip param_names params)) param_combinations
        ++ [EWriteStatepoints]).

Definition main : result (list init_event) := main_of get_parameters.

(** The statepoints of the jobs [main] initialises. *)
Definition statepoints_of (gp : list string * list (list value))
  : list (gmap string value) :=
  map (dict_zip gp.1) gp.2.

Definition jobs_initialised (evs : list init_event) : list (gmap string value) :=
  omap (λ ev, match ev with EOpenInit sp => Some sp | EWriteStatepoints => None end) evs.

(** ** [os.path] on POSIX path strings *)

Definition starts_with_sep (s : string) : bool :=
  match s with
  | String c _ => Ascii.eqb c "/"%char
  | EmptyString => false
  end.

Fixpoint ends_with_sep (s : string) : bool :=
  match s with
  | EmptyString => false
  | String c s' =>
      match s' with
      | EmptyString => Ascii.eqb c "/"%char
      | String _ _ => ends_with_sep s'
      end
  end.

(** One step of [os.path.join]: an absolute component discards what came
    before it. *)
Definition path_join2 (path b : string) : string :=
  if starts_with_sep b then b
  else if String.eqb path "" || ends_with_sep path then (path ++ b)%string
  else (path ++ "/" ++ b)%string.

Definition path_join (a : string) (p : list string) : string :=
  foldl path_join2 a p.

(** [s.split("/")]. *)
Fixpoint split_sep (s : string) : list string :=
  match s with
  | EmptyString => [""]
  | String c s' =>
      if Ascii.eqb c "/"%char then "" :: split_sep s'
      else match split_sep s' with
           | [] => [String c ""]
           | x :: xs => String c x :: xs
           end
  end.

Definition join_sep (comps : list string) : string := String.concat "/" comps.

(** The body of the loop of [os.path.normpath]. *)
Definition norm_step (initial_slashes : nat) (new_comps : list string) (comp : string)
  : list string :=
  if String.eqb comp "" || String.eqb comp "." then new_comps
  else if negb (String.eqb comp "..")
          || (Nat.eqb initial_slashes 0 && bool_decide (new_comps = []))
          || bool_decide (last new_comps = Some "..")
       then new_comps ++ [comp]
       else removelast new_comps.

Definition count_initial_slashes (path : string) : nat :=
  if negb (starts_with_sep path) then 0%nat
  else match path with
       | String _ (String c2 rest) =>
           if Ascii.eqb c2 "/"%char && negb (starts_with_sep rest) then 2%nat else 1%nat
       | _ => 1%nat
       end.

Definition normpath (path : string) : string :=
  if String.eqb path "" then "."
  else
    let initial_slashes := count_initial_slashes path in
    let comps := foldl (norm_step initial_slashes) [] (split_sep path) in
    let path' := join_sep comps in
    let path' :=
      match initial_slashes with
      | O => path'
      | S O => ("/" ++ path')%string
      | _ => ("//" ++ path')%string
      end in
    if String.eqb path' "" then "." else path'.

Definition abspath (cwd path : string) : string :=
  normpath (if starts_with_sep path then path else path_join2 cwd path).

(** ** [src/project.py]: data *)

(** A job: its statepoint [job.sp] and its workspace directory [job.ws].  The
    job document [job.doc] is the mutable part and lives in the store. *)
Record Job : Type := mkJob {
  sp : gmap string value;
  ws : string
}.

(** The descriptors of msibi are taken as plain records of what they are
    constructed from. *)
Record State : Type := mkState {
  st_name : value;
  st_kT : value;
  st_traj_file : string;
  st_alpha : value;
  st_dir : string
}.

Record Pair : Type := mkPair {
  pr_type1 : value;
  pr_type2 : value;
  pr_potential : value;
  pr_head_correction_form : value
}.

(** [bd_harmonic] is [Some (k, r0)] once [set_harmonic] was called. *)
Record Bond : Type := mkBond {
  bd_type1 : value;
  bd_type2 : value;
  bd_harmonic : option (value * value)
}.

(** [an_harmonic] is [Some (k, theta0)] once [set_harmonic] was called. *)
Record Angle : Type := mkAngle {
  an_type1 : value;
  an_type2 : value;
  an_type3 : value;
  an_harmonic : option (value * value)
}.

(** The optimiser object [opt]: its hyperparameters and what was added to it. *)
Record MSIBI : Type := mkMSIBI {
  integrator : value;
  integrator_kwargs : value;
  dt : value;
  gsd_period : value;
  n_iterations : value;
  n_steps : value;
  states : list State;
  pairs : list Pair;
  bonds : list Bond;
  angles : list Angle
}.

Definition add_state (opt : MSIBI) (s : State) : MSIBI :=
  mkMSIBI (integrator opt) (integrator_kwargs opt) (dt opt) (gsd_period opt)
    (n_iterations opt) (n_steps opt)
    (states opt ++ [s]) (pairs opt) (bonds opt) (angles opt).

Definition add_pair (opt : MSIBI) (p : Pair) : MSIBI :=
  mkMSIBI (integrator opt) (integrator_kwargs opt) (dt opt) (gsd_period opt)
    (n_iterations opt) (n_steps opt)
    (states opt) (pairs opt ++ [p]) (bonds opt) (angles opt).

Definition add_bond (opt : MSIBI) (b : Bond) : MSIBI :=
  mkMSIBI (integrator opt) (integrator_kwargs opt) (dt opt) (gsd_period opt)
    (n_iterations opt) (n_steps opt)
    (states opt) (pairs opt) (bonds opt ++ [b]) (angles opt).

(** The keyword arguments of [opt.optimize_pairs]. *)
Record RunnerArgs : Type := mkRunnerArgs {
  max_frames : value;
  rdf_cutoff : value;
  r_min : value;
  r_switch : value;
  n_rdf_points : value;
  smooth_rdfs : value;
  rdf_exclude_bonded : value
}.

(** What lies outside the repository: the working directory and the files
    of the file system, the radial grid [opt.pot_r] as the optimiser exposes
    it before optimisation, and the optimisation itself, which raises or
    returns and then exposes [opt.dr] and [opt.pot_r]. *)
Record World : Type := mkWorld {
  getcwd : string;
  isfile : string → bool;
  pot_r_before : MSIBI → result value;
  optimize_pairs : MSIBI → RunnerArgs → result (value * value)
}.

(** The effects of [optimize], in program order. *)
Inductive event : Type :=
| ESetDoc (k : string) (v : value)
| ERunnerCall (opt : MSIBI) (args : RunnerArgs)
| ERunnerReturn (dr pot_r : value).

Record store : Type := mkStore {
  doc : gmap string value;
  log : list event
}.

(** State and error monad over the store; the store survives an exception. *)
Definition M (A : Type) : Type := store → result A * store.

Definition M_ret {A} (a : A) : M A := λ st, (Ok a, st).

Definition M_bind {A B} (f : A → M B) (m : M A) : M B :=
  λ st, match m st with
        | (Ok a, st') => f a st'
        | (Raise e, st') => (Raise e, st')
        end.

#[export] Instance M_mret : MRet M := @M_ret.
#[export] Instance M_mbind : MBind M := @M_bind.

Definition lift {A} (r : result A) : M A := λ st, (r, st).

Definition read_doc {A} (f : gmap string value → result A) : M A :=
  λ st, (f (doc st), st).

(** [job.doc[k] = v]. *)
Definition doc_set (k : string) (v : value) : M unit :=
  λ st, (Ok (), mkStore (<[k := v]> (doc st)) (log st ++ [ESetDoc k v])).

(** [job.sp.a]. *)
Definition sp_attr (job : Job) (a : string) : result value :=
  match sp job !! a with
  | Some v => Ok v
  | None => Raise (AttributeError "job.sp" a)
  end.

(** [job.doc.a]. *)
Definition doc_attr (d : gmap string value) (a : string) : result value :=
  match d !! a with
  | Some v => Ok v
  | None => Raise (AttributeError "job.doc" a)
  end.

(** ** [src/project.py]: the [completed] label and the [optimize] operation *)

(** [job.doc.get("done")]. *)
Definition completed (d : gmap string value) : value :=
  default VNone (d !! "done").

(** The constructor call [MSIBI(...)], its arguments read left to right. *)
Definition make_optimizer (job : Job) (d : gmap string value) : result MSIBI :=
  a_integrator ← sp_attr job "integrator";
  a_integrator_kwargs ← doc_attr d "integrator_kwargs";
  a_dt ← sp_attr job "dt";
  a_gsd_period ← sp_attr job "gsd_period";
  a_iterations ← sp_attr job "iterations";
  a_n_steps ← sp_attr job "n_steps";
  Ok (mkMSIBI a_integrator a_integrator_kwargs a_dt a_gsd_period a_iterations
        a_n_steps [] [] [] []).

(** The resolved trajectory path of a state entry. *)
Definition traj_file_path (w : World) (job : Job) (target : value) : result string :=
  match target with
  | VStr t => Ok (abspath (getcwd w) (path_join (ws job) [".."; ".."; t]))
  | _ => Raise (TypeError "join")
  end.

(** Body of [for state in job.sp.states]. *)
Definition state_step (w : World) (job : Job) (opt : MSIBI) (state : value)
  : result MSIBI :=
  target ← py_getitem state "target_trajectory";
  path ← traj_file_path w job target;
  name ← py_getitem state "name";
  kT ← py_getitem state "kT";
  alpha ← py_getitem state "alpha";
  Ok (add_state opt (mkState name kT path alpha (ws job))).

Definition add_states (w : World) (job : Job) (opt : MSIBI) : result MSIBI :=
  v ← sp_attr job "states";
  items ← py_iter v;
  foldM (state_step w job) opt items.

(** The [if]/[else] that binds the local variable [potential]; [prev] is its
    binding on entry ([None] while it is unbound).  With a family that is
    neither "morse" nor "mie" no branch assigns, and the variable keeps
    whatever it held. *)
Definition choose_potential (w : World) (job : Job) (opt : MSIBI)
    (prev : option value) (pair : value) : result (option value) :=
  explicit ← py_has_key pair "potential";
  if explicit : bool then
    p ← py_getitem pair "potential"; Ok (Some p)
  else
    family ← sp_attr job "initial_potential";
    if py_eq_str family "morse" then
      r ← pot_r_before w opt;
      Ok (Some (VCall "morse" [r; VFloat 1 0; VFloat 1 0]))
    else if py_eq_str family "mie" then
      cutoff ← sp_attr job "potential_cutoff";
      Ok (Some (VCall "mie" [cutoff; VFloat 1 0; VFloat 1 0]))
    else Ok prev.

(** Reading the local variable [potential]. *)
Definition read_potential (potential : option value) : result value :=
  match potential with
  | Some p => Ok p
  | None => Raise (UnboundLocalError "potential")
  end.

(** Body of [for pair in job.sp.pairs]; the accumulator carries [opt] and the
    binding of [potential], which outlives the iteration. *)
Definition pair_step (w : World) (job : Job) (acc : MSIBI * option value)
    (pair : value) : result (MSIBI * option value) :=
  potential ← choose_potential w job acc.1 acc.2 pair;
  type1 ← py_getitem pair "type1";
  type2 ← py_getitem pair "type2";
  p ← read_potential potential;
  head ← sp_attr job "head_correction";
  Ok (add_pair acc.1 (mkPair type1 type2 p head), potential).

Definition add_pairs (w : World) (job : Job) (opt : MSIBI) : result MSIBI :=
  v ← sp_attr job "pairs";
  items ← py_iter v;
  acc ← foldM (pair_step w job) (opt, None) items;
  Ok acc.1.

(** The Bond object built for one entry. *)
Definition make_bond (bond : value) : result Bond :=
  type1 ← py_getitem bond "type1";
  type2 ← py_getitem bond "type2";
  form ← py_getitem bond "form";
  if py_eq_str form "harmonic" then
    k ← py_getitem bond "k";
    r0 ← py_getitem bond "r0";
    Ok (mkBond type1 type2 (Some (k, r0)))
  else Ok (mkBond type1 type2 None).

(** Body of [for bond in job.sp.bonds]. *)
Definition bond_step (opt : MSIBI) (bond : value) : result MSIBI :=
  new_bond ← make_bond bond;
  Ok (add_bond opt new_bond).

Definition add_bonds (job : Job) (opt : MSIBI) : result MSIBI :=
  v ← sp_attr job "bonds";
  if py_is_none v then Ok opt
  else items ← py_iter v; foldM bond_step opt items.

(** The Angle object built for one entry. *)
Definition make_angle (angle : value) : result Angle :=
  type1 ← py_getitem angle "type1";
  type2 ← py_getitem angle "type2";
  type3 ← py_getitem angle "type3";
  form ← py_getitem angle "form";
  if py_eq_str form "harmonic" then
    k ← py_getitem angle "k";
    theta0 ← py_getitem angle "theta0";
    Ok (mkAngle type1 type2 type3 (Some (k, theta0)))
  else Ok (mkAngle type1 type2 type3 None).

(** Body of [for angle in job.sp.angles]: the object is bound to the local
    [new_angle] and nothing is done with it; [opt] is not touched. *)
Definition angle_step (new_angle : option Angle) (angle : value)
  : result (option Angle) :=
  a ← make_angle angle;
  Ok (Some a).

Definition build_angles (job : Job) : result (option Angle) :=
  v ← sp_attr job "angles";
  if py_is_none v then Ok None
  else items ← py_iter v; foldM angle_step None items.

(** Everything between [job.doc["done"] = False] and the call of
    [opt.optimize_pairs]: it reads the statepoint and the document and writes
    neither. *)
Definition assemble (w : World) (job : Job) (d : gmap string value) : result MSIBI :=
  opt ← make_optimizer job d;
  opt ← add_states w job opt;
  opt ← add_pairs w job opt;
  opt ← add_bonds job opt;
  _ ← build_angles job;
  Ok opt.

(** The keyword arguments of the call, read left to right. *)
Definition runner_args (job : Job) : result RunnerArgs :=
  a_max_frames ← sp_attr job "num_rdf_frames";
  a_rdf_cutoff ← sp_attr job "potential_cutoff";
  a_r_min ← sp_attr job "r_min";
  a_r_switch ← sp_attr job "r_switch";
  a_n_rdf_points ← sp_attr job "num_rdf_points";
  a_smooth_rdfs ← sp_attr job "smooth_rdf";
  a_rdf_exclude_bonded ← sp_attr job "rdf_exclude_bonded";
  Ok (mkRunnerArgs a_max_frames a_rdf_cutoff a_r_min a_r_switch a_n_rdf_points
        a_smooth_rdfs a_rdf_exclude_bonded).

(** The call [opt.optimize_pairs(...)] once its arguments are evaluated. *)
Definition call_optimize_pairs (w : World) (opt : MSIBI) (args : RunnerArgs)
  : M (value * value) :=
  λ st,
    let st1 := mkStore (doc st) (log st ++ [ERunnerCall opt args]) in
    match optimize_pairs w opt args with
    | Ok r => (Ok r, mkStore (doc st1) (log st1 ++ [ERunnerReturn r.1 r.2]))
    | Raise e => (Raise e, st1)
    end.

Definition optimize (w : World) (job : Job) : M unit :=
  _ ← doc_set "done" (VBool false);
  opt ← read_doc (assemble w job);
  args ← lift (runner_args job);
  r ← call_optimize_pairs w opt args;
  _ ← doc_set "dr" r.1;
  _ ← doc_set "pot_r" r.2;
  doc_set "done" (VBool true).

(** [@MyProject.post(completed)]: the workflow runs the operation on a job
    only while its post-condition does not hold.  The result says whether
    [optimize] was entered. *)
Definition run_operation (w : World) (job : Job) : M bool :=
  λ st,
    if py_truthy (completed (doc st)) then (Ok false, st)
    else (_ ← optimize w job; mret true) st.

(** The three states of the completion tracker, read off the document. *)
Inductive tracker_state : Type := NOT_STARTED | IN_PROGRESS | COMPLETE.

Definition tracker_state_of (d : gmap string value) : option tracker_state :=
  match d !! "done" with
  | None => Some NOT_STARTED
  | Some (VBool false) => Some IN_PROGRESS
  | Some (VBool true) => Some COMPLETE
  | Some _ => None
  end.

(** The optimiser [opt] with further states, pairs and bonds added to it. *)
Definition extend (opt : MSIBI) (ss : list State) (ps : list Pair) (bs : list Bond)
  : MSIBI :=
  mkMSIBI (integrator opt) (integrator_kwargs opt) (dt opt) (gsd_period opt)
    (n_iterations opt) (n_steps opt)
    (states opt ++ ss) (pairs opt ++ ps) (bonds opt ++ bs) (angles opt).

(** The events one run of [optimize] appends to the log. *)
Definition new_events (w : World) (job : Job) (st : store) : list event :=
  drop (length (log st)) (log (optimize w job st).2).

(** A path component that [normpath] keeps as it is. *)
Definition no_sep (c : string) : bool :=
  forallb (λ a, negb (Ascii.eqb a "/"%char)) (String.list_ascii_of_string c).

Definition clean (c : string) : bool :=
  negb (String.eqb c "") && negb (String.eqb c ".") && negb (String.eqb c "..")
  && no_sep c.

(** The number of combinations the candidate lists [ls] allow. *)
Definition space_size {A} (ls : list (list A)) : nat :=
  foldr (λ l n, (length l * n)%nat) 1%nat ls.

(** What the assembled problem holds for a state entry. *)
Definition state_of (w : World) (job : Job) (entry : value) (s : State) : Prop :=
  ∃ t, py_getitem entry "target_trajectory" = Ok (VStr t)
       ∧ st_traj_file s = abspath (getcwd w) (path_join (ws job) [".."; ".."; t])
       ∧ py_getitem entry "name" = Ok (st_name s)
       ∧ py_getitem entry "kT" = Ok (st_kT s)
       ∧ py_getitem entry "alpha" = Ok (st_alpha s)
       ∧ st_dir s = ws job.

(** What the assembled problem holds for a pair entry: [opt'] and [prev] are
    the optimiser and the binding of [potential] when the entry was visited. *)
Definition pair_of (w : World) (job : Job) (entry : value) (p : Pair) : Prop :=
  py_getitem entry "type1" = Ok (pr_type1 p)
  ∧ py_getitem entry "type2" = Ok (pr_type2 p)
  ∧ sp_attr job "head_correction" = Ok (pr_head_correction_form p)
  ∧ ∃ opt' prev, choose_potential w job opt' prev entry = Ok (Some (pr_potential p)).

(** What the assembled problem holds for a bond entry. *)
Definition bond_of (entry : value) (b : Bond) : Prop :=
  py_getitem entry "type1" = Ok (bd_type1 b)
  ∧ py_getitem entry "type2" = Ok (bd_type2 b)
  ∧ ∃ form, py_getitem entry "form" = Ok form
      ∧ if py_eq_str form "harmonic"
        then ∃ k r0, py_getitem entry "k" = Ok k
                     ∧ py_getitem entry "r0" = Ok r0
                     ∧ bd_harmonic b = Some (k, r0)
        else bd_harmonic b = None.

(** The problem of the first call of the optimiser among [evs]. *)
Definition problem_handed (evs : list event) : option MSIBI :=
  head (omap (λ ev, match ev with
                    | ERunnerCall opt _ => Some opt
                    | _ => None
                    end) evs).

(** ** Sample jobs *)

(** A world in which no file exists, the optimiser exposes a radial grid
    before optimisation, and the optimisation returns. *)
Definition sample_world : World :=
  mkWorld "/home/user" (λ _, false) (λ _, Ok (VStr "grid"))
    (λ _ _, Ok (VFloat 1 (-2), VStr "grid")).

(** A statepoint over the declared names, followed by [extra_names]. *)
Definition statepoint_with (initial_potential v_states v_pairs v_bonds v_angles : value)
    (extra_names : list string) (extra_values : list value) : gmap string value :=
  dict_zip (get_parameters.1 ++ extra_names)
    ([VFloat 5 0; VInt 101; VInt 5; VBool true; VBool false; VNone;
      VStr "hoomd.md.methods.NVT"; VDict [("kT", VFloat 1 0)]; VFloat 1 (-3);
      VInt 1000; initial_potential; VInt 20; VFloat 1 6;
      v_states; v_pairs; v_bonds; v_angles] ++ extra_values).

Definition sample_state : value :=
  VDict [("name", VStr "A"); ("kT", VFloat 1 0);
         ("target_trajectory", VStr "ref.gsd"); ("alpha", VFloat 1 0)].

Definition sample_ws : string := "/project/workspace/0d1f2a".

(** The scenario of the specification (one state, one pair without explicit
    potential, no bonds, no angles, family "mie"), with the two fields the
    declaration lacks supplied. *)
Definition sample_job : Job :=
  mkJob (statepoint_with (VStr "mie") (VList [sample_state])
           (VList [VDict [("type1", VStr "A"); ("type2", VStr "A")]])
           VNone VNone
           ["head_correction"; "r_min"] [VStr "linear"; VFloat 1 (-1)])
        sample_ws.

(** A job document as [init.py] leaves it, but for [integrator_kwargs]. *)
Definition fresh_store : store :=
  mkStore {["integrator_kwargs" := VDict [("kT", VFloat 1 0)]]} [].

Definition with_extras (initial_potential v_pairs v_bonds v_angles : value) : Job :=
  mkJob (statepoint_with initial_potential (VList [sample_state]) v_pairs
           v_bonds v_angles
           ["head_correction"; "r_min"] [VStr "linear"; VFloat 1 (-1)])
        sample_ws.

Definition harmonic_angle : value :=
  VDict [("type1", VStr "A"); ("type2", VStr "B"); ("type3", VStr "A");
         ("form", VStr "harmonic"); ("k", VFloat 25 0); ("theta0", VFloat 2 0)].

(** One harmonic angle declared. *)
Definition angle_job : Job :=
  with_extras (VStr "mie") (VList []) VNone (VList [harmonic_angle]).

Definition harmonic_bond : value :=
  VDict [("type1", VStr "A"); ("type2", VStr "B");
         ("form", VStr "harmonic"); ("k", VFloat 100 0); ("r0", VFloat 12 (-1))].

Definition fene_bond : value :=
  VDict [("type1", VStr "B"); ("type2", VStr "B"); ("form", VStr "fene")].

(** One harmonic bond and one bond of another form declared. *)
Definition bond_job : Job :=
  with_extras (VStr "mie") (VList []) (VList [harmonic_bond; fene_bond]) VNone.

Definition explicit_pair : value :=
  VDict [("type1", VStr "A"); ("type2", VStr "A"); ("potential", VStr "table.txt")].

Definition plain_pair : value :=
  VDict [("type1", VStr "B"); ("type2", VStr "B")].

(** A pair with an explicit potential, under the family "mie". *)
Definition explicit_job : Job :=
  with_extras (VStr "mie") (VList [explicit_pair; plain_pair]) VNone VNone.

(** The family "lj" is neither "morse" nor "mie"; the second pair has no
    explicit potential. *)
Definition stale_job : Job :=
  with_extras (VStr "lj") (VList [explicit_pair; plain_pair]) VNone VNone.

(** The family "lj" and a single pair without explicit potential. *)
Definition unbound_job : Job :=
  with_extras (VStr "lj") (VList [plain_pair]) VNone VNone.

(** Statepoints over the declared names only. *)
Definition declared_job (v_pairs : value) : Job :=
  mkJob (statepoint_with (VStr "mie") (VList [sample_state]) v_pairs VNone VNone
           [] [])
        sample_ws.

(** The job [job] with the statepoint field [k] set to [v]. *)
Definition with_field (job : Job) (k : string) (v : value) : Job :=
  mkJob (<[k := v]> (sp job)) (ws job).

(** A job over the declared names whose states, pairs, bonds and angles are
    the placeholders of the shipped declaration. *)
Definition placeholder_job : Job :=
  mkJob (statepoint_with (VStr "mie")
           (VList [VDict []; VDict []; VDict []])
           (VList [VDict []; VDict []; VDict []])
           (VList [VDict []; VDict []; VDict []])
           (VList [VDict []; VDict []; VDict []])
           [] [])
        sample_ws.

(** The family "morse" and a pair without explicit potential. *)
Definition morse_job : Job :=
  with_extras (VStr "morse") (VList [plain_pair; explicit_pair; plain_pair]) VNone VNone.

(** An angle entry without [type1]. *)
Definition broken_angle_job : Job :=
  with_extras (VStr "mie") (VList []) VNone
    (VList [VDict [("type2", VStr "B"); ("type3", VStr "A")]]).

(** A world whose optimiser exposes no radial grid before optimisation. *)
Definition gridless_world : World :=
  mkWorld "/home/user" (λ _, false)
    (λ _, Raise (AttributeError "opt" "pot_r"))
    (λ _ _, Ok (VFloat 1 (-2), VStr "grid")).

(** A world whose optimisation raises. *)
Definition failing_world : World :=
  mkWorld "/home/user" (λ _, false) (λ _, Ok (VStr "grid"))
    (λ _ _, Raise (RunnerError "diverged")).

(** The document of a job that completed earlier. *)
Definition complete_store : store :=
  mkStore (<["done" := VBool true]>
             (<["pot_r" := VStr "old grid"]>
                (<["dr" := VFloat 5 (-2)]> (doc fresh_store)))) [].

(** The statepoint fields [optimize] reads. *)
Definition fields_read : list string :=
  ["integrator"; "dt"; "gsd_period"; "iterations"; "n_steps"; "states";
   "pairs"; "initial_potential"; "potential_cutoff"; "head_correction";
   "bonds"; "angles"; "num_rdf_frames"; "r_min"; "r_switch";
   "num_rdf_points"; "smooth_rdf"; "rdf_exclude_bonded"].

(** * Properties *)

(** ** Parameter-space expansion *)

Section Product.
Context {A : Type}.
Implicit Types (l : list A) (ls : list (list A)) (c : list A).

Lemma product_cons l ls :
  product (l :: ls) = flat_map (λ x, map (cons x) (product ls)) l.
Proof. reflexivity. Qed.

Lemma length_flat_map_const {B} (f : A → list B) (n : nat) l :
  (∀ x, length (f x) = n) → length (flat_map f l) = (length l * n)%nat.
Proof.
  intros Hf. induction l as [|x l IH]; simpl; [done|].
  rewrite List.length_app, Hf, IH. done.
Qed.

Lemma product_length ls : length (product ls) = space_size ls.
Proof.
  induction ls as [|l ls IH]; [done|].
  rewrite product_cons. simpl.
  rewrite (length_flat_map_const _ (length (product ls))).
  - by rewrite IH.
  - intros x. by rewrite List.length_map.
Qed.

Lemma elem_of_product c ls :
  c ∈ product ls ↔ Forall2 (λ x l, x ∈ l) c ls.
Proof.
  revert c. induction ls as [|l ls IH]; intros c.
  - simpl. rewrite list_elem_of_singleton. split.
    + intros ->. constructor.
    + by inversion 1.
  - rewrite product_cons, list_elem_of_In, in_flat_map. split.
    + intros (x & Hx & Hc). apply in_map_iff in Hc as (c' & <- & Hc').
      constructor.
      * by apply list_elem_of_In.
      * apply IH. by apply list_elem_of_In.
    + inversion 1 as [|x ? c' ? Hx Hc']; subst.
      exists x. split; [by apply list_elem_of_In|].
      apply in_map_iff. exists c'. split; [done|].
      apply list_elem_of_In. by apply IH.
Qed.

Lemma product_nil_in ls : [] ∈ ls → product ls = [].
Proof.
  induction ls as [|l ls IH]; intros Hin.
  - by apply elem_of_nil in Hin.
  - apply elem_of_cons in Hin as [<- | Hin]; [done|].
    rewrite product_cons, (IH Hin). by induction l.
Qed.

Lemma NoDup_product ls : Forall NoDup ls → NoDup (product ls).
Proof.
  induction 1 as [|l ls Hl _ IH].
  - simpl. apply NoDup_singleton.
  - rewrite product_cons.
    induction Hl as [|x l Hx Hl IHl]; simpl; [constructor|].
    apply NoDup_app. split_and!.
    + change (NoDup (cons x <$> product ls)).
      apply NoDup_fmap_2; [|done]. by intros ?? [=].
    + intros c Hc1 Hc2.
      apply list_elem_of_In, in_map_iff in Hc1 as (c1 & <- & _).
      apply list_elem_of_In, in_flat_map in Hc2 as (y & Hy & Hc2).
      apply in_map_iff in Hc2 as (c2 & [= <- _] & _).
      by apply Hx, list_elem_of_In.
    + done.
Qed.

Lemma product_lengths c ls : c ∈ product ls → length c = length ls.
Proof. rewrite elem_of_product. apply Forall2_length. Qed.
End Product.

Section DictZip.
Implicit Types (names : list string) (params : list value)
  (m : gmap string value).

Lemma foldl_insert_notin m names params k :
  k ∉ names →
  foldl (λ m kv, <[kv.1 := kv.2]> m) m (zip names params) !! k = m !! k.
Proof.
  revert m params. induction names as [|k' names IH]; intros m params Hk; [done|].
  destruct params as [|v params]; [done|]. simpl.
  apply not_elem_of_cons in Hk as [Hne Hk].
  rewrite IH by done. by rewrite lookup_insert_ne.
Qed.

Lemma foldl_insert_lookup m names params i k :
  NoDup names → names !! i = Some k →
  foldl (λ m kv, <[kv.1 := kv.2]> m) m (zip names params) !! k
  = match params !! i with Some v => Some v | None => m !! k end.
Proof.
  revert m params i.
  induction names as [|k' names IH]; intros m params i Hnd Hi; [done|].
  destruct params as [|v params]; [done|].
  apply NoDup_cons in Hnd as [Hk' Hnd]. simpl.
  destruct i as [|i]; simpl in *.
  - injection Hi as ->. rewrite foldl_insert_notin by done.
    by rewrite lookup_insert_eq.
  - rewrite (IH _ _ i) by done.
    destruct (params !! i); [done|].
    apply lookup_insert_ne. intros ->.
    apply Hk'. by eapply list_elem_of_lookup_2.
Qed.

Lemma dict_zip_notin names params k :
  k ∉ names → dict_zip names params !! k = None.
Proof. intros Hk. unfold dict_zip. by rewrite foldl_insert_notin. Qed.

(** The statepoint maps the i-th name to the i-th value of the
    combination, and to nothing when the combination is too short. *)
Lemma dict_zip_lookup names params i k :
  NoDup names → names !! i = Some k →
  dict_zip names params !! k = params !! i.
Proof.
  intros Hnd Hi. unfold dict_zip.
  rewrite (foldl_insert_lookup _ _ _ i) by done.
  by destruct (params !! i).
Qed.

(** With distinct names, the statepoint determines the combination. *)
Lemma dict_zip_inj names params1 params2 :
  NoDup names → length params1 = length names → length params2 = length names →
  dict_zip names params1 = dict_zip names params2 → params1 = params2.
Proof.
  intros Hnd H1 H2 Heq. apply list_eq. intros i.
  destruct (names !! i) as [k|] eqn:Hk.
  - rewrite <- (dict_zip_lookup names params1 i k) by done.
    rewrite <- (dict_zip_lookup names params2 i k) by done.
    by rewrite Heq.
  - apply lookup_ge_None in Hk.
    rewrite !(proj2 (lookup_ge_None _ _)) by lia. done.
Qed.
End DictZip.

Lemma od_values_length {V} (ps : list (string * V)) :
  length (od_values ps) = length (od_keys ps).
Proof. unfold od_values, od_keys. by rewrite !List.length_map. Qed.

Lemma declared_names :
  get_parameters.1 =
  ["potential_cutoff"; "num_rdf_points"; "num_rdf_frames"; "smooth_rdf";
   "rdf_exclude_bonded"; "r_switch"; "integrator"; "integrator_kwargs"; "dt";
   "gsd_period"; "initial_potential"; "iterations"; "n_steps"; "states";
   "pairs"; "bonds"; "angles"].
Proof. reflexivity. Qed.

Lemma NoDup_declared_names : NoDup get_parameters.1.
Proof. rewrite declared_names. apply (bool_decide_unpack _). by vm_compute. Qed.

(** C4, as the specification states it, fails on the shipped declaration:
    [integrator] and [integrator_kwargs] have no candidate, the expansion is
    empty, and [main] completes without raising and without initialising a
    job. *)
Lemma C4_counterexample :
  ("integrator", []) ∈ parameters
  ∧ get_parameters.2 = []
  ∧ main = Ok [EWriteStatepoints]
  ∧ jobs_initialised [EWriteStatepoints] = [].
Proof.
  split_and!; try reflexivity.
  apply list_elem_of_In. vm_compute. tauto.
Qed.

(** C4 (amended): if some parameter has an empty candidate list, the
    expansion yields no combination at all, and [main] then initialises no
    job and still completes normally (it only writes the statepoint
    summary); no error is raised anywhere. *)
Theorem C4_empty_candidates_no_jobs (ps : list (string * list value)) (k : string) :
  (k, []) ∈ ps →
  (expand ps).2 = []
  ∧ statepoints_of (expand ps) = []
  ∧ main_of (expand ps) = Ok [EWriteStatepoints]
  ∧ ∀ evs, main_of (expand ps) = Ok evs → jobs_initialised evs = [].
Proof.
  intros Hin.
  assert (Hp : product (od_values ps) = []).
  { apply product_nil_in. unfold od_values.
    apply list_elem_of_In, in_map_iff. exists (k, []).
    split; [done|]. by apply list_elem_of_In. }
  unfold statepoints_of, main_of, expand. simpl. rewrite Hp. simpl.
  split_and!; try done. by intros evs [= <-].
Qed.

Lemma C4_empty_candidates_no_jobs_witness :
  get_parameters.2 = [] ∧ main = Ok [EWriteStatepoints].
Proof.
  assert (Hin : ("integrator", []) ∈ parameters).
  { apply list_elem_of_In. vm_compute. tauto. }
  destruct (C4_empty_candidates_no_jobs parameters "integrator" Hin)
    as (H1 & _ & H2 & _).
  split; [exact H1 | exact H2].
Defined.

(** C5, as the specification states it, fails when a candidate list repeats
    a value: the two combinations (and the two statepoints) are equal. *)
Lemma C5_counterexample :
  let ps := [("dt", [VFloat 1 (-3); VFloat 1 (-3)])] in
  NoDup (od_keys ps)
  ∧ Forall (λ l, l ≠ []) (od_values ps)
  ∧ length (expand ps).2 = 2%nat
  ∧ ¬ NoDup (expand ps).2
  ∧ ¬ NoDup (statepoints_of (expand ps)).
Proof.
  simpl. split_and!.
  - apply NoDup_singleton.
  - by repeat constructor.
  - done.
  - intros Hnd. apply NoDup_cons in Hnd as [Hnotin _].
    apply Hnotin. left.
  - intros Hnd. apply NoDup_cons in Hnd as [Hnotin _].
    apply Hnotin. left.
Qed.

(** C5 (amended): for every ordered mapping of k distinct parameter names to
    candidate lists of sizes n1..nk, the expansion has exactly n1*...*nk
    combinations; the combinations are exactly the lists taking one value
    per parameter in declared order; zipping the names with a combination
    gives the statepoint that maps the i-th name to the i-th value and
    nothing else; and when no candidate list repeats a value, the
    combinations are pairwise distinct and so are their statepoints. *)
Theorem C5_parameter_space (ps : list (string * list value)) :
  NoDup (od_keys ps) →
  length (expand ps).2 = space_size (od_values ps)
  ∧ (∀ c, c ∈ (expand ps).2 ↔ Forall2 (λ x l, x ∈ l) c (od_values ps))
  ∧ (∀ c i k, c ∈ (expand ps).2 → (expand ps).1 !! i = Some k →
       dict_zip (expand ps).1 c !! k = c !! i ∧ is_Some (c !! i))
  ∧ (∀ c k, k ∉ (expand ps).1 → dict_zip (expand ps).1 c !! k = None)
  ∧ (Forall NoDup (od_values ps) →
       NoDup (expand ps).2 ∧ NoDup (statepoints_of (expand ps))).
Proof.
  intros Hnd. unfold expand, statepoints_of. simpl. split_and!.
  - apply product_length.
  - intros c. apply elem_of_product.
  - intros c i k Hc Hk.
    apply product_lengths in Hc. rewrite od_values_length in Hc.
    assert (i < length c)%nat.
    { rewrite Hc. by eapply lookup_lt_Some. }
    split; [by apply dict_zip_lookup | by apply lookup_lt_is_Some].
  - intros c k Hk. by apply dict_zip_notin.
  - intros Hcand. pose proof (NoDup_product _ Hcand) as Hp.
    split; [done|].
    change (NoDup (dict_zip (od_keys ps) <$> product (od_values ps))).
    apply NoDup_fmap_2_strong; [|done].
    intros c1 c2 H1 H2. apply dict_zip_inj; [done|..].
    + apply product_lengths in H1. by rewrite H1, od_values_length.
    + apply product_lengths in H2. by rewrite H2, od_values_length.
Qed.

Lemma C5_parameter_space_witness :
  let ps := [("dt", [VFloat 1 (-3); VFloat 2 (-3)]);
             ("iterations", [VInt 10; VInt 20; VInt 30])] in
  length (expand ps).2 = 6%nat
  ∧ NoDup (expand ps).2
  ∧ dict_zip (expand ps).1 [VFloat 2 (-3); VInt 30] !! "iterations" = Some (VInt 30).
Proof.
  intros ps.
  assert (Hnd : NoDup (od_keys ps)).
  { apply (bool_decide_unpack _). by vm_compute. }
  destruct (C5_parameter_space ps Hnd) as (Hlen & Hmem & Hzip & _ & Hdistinct).
  split_and!.
  - exact Hlen.
  - apply Hdistinct. cbn.
    repeat first [apply List.Forall_nil | apply List.Forall_cons
                 | apply NoDup_nil_2 | apply NoDup_cons_2];
      intros Hin; apply list_elem_of_In in Hin; simpl in Hin;
      intuition discriminate.
  - destruct (Hzip [VFloat 2 (-3); VInt 30] 1%nat "iterations") as [-> _];
      [|reflexivity..].
    apply Hmem. cbn.
    repeat first [apply List.Forall2_nil | apply List.Forall2_cons];
      apply list_elem_of_In; simpl; tauto.
Defined.

(** ** The error monad *)

Lemma bind_Ok_inv {A B} (f : A → result B) (m : result A) (b : B) :
  m ≫= f = Ok b → ∃ a, m = Ok a ∧ f a = Ok b.
Proof. destruct m as [a|e]; [by exists a | done]. Qed.

Ltac inv_bind H :=
  let a := fresh "a" in
  let Ha := fresh "Ha" in
  apply bind_Ok_inv in H as (a & Ha & H).

(** ** Statepoint and document reads *)

Lemma sp_attr_Ok job a v : sp_attr job a = Ok v ↔ sp job !! a = Some v.
Proof. unfold sp_attr. destruct (sp job !! a); split; congruence. Qed.

Lemma sp_attr_missing job a :
  sp job !! a = None → sp_attr job a = Raise (AttributeError "job.sp" a).
Proof. unfold sp_attr. by intros ->. Qed.

Lemma extend_nil opt : extend opt [] [] [] = opt.
Proof. destruct opt. unfold extend. simpl. by rewrite !app_nil_r. Qed.

Lemma extend_extend opt ss ps bs ss' ps' bs' :
  extend (extend opt ss ps bs) ss' ps' bs' = extend opt (ss ++ ss') (ps ++ ps') (bs ++ bs').
Proof. unfold extend. simpl. by rewrite !app_assoc. Qed.

Lemma add_state_extend opt s : add_state opt s = extend opt [s] [] [].
Proof. unfold extend, add_state. by rewrite !app_nil_r. Qed.

Lemma add_pair_extend opt p : add_pair opt p = extend opt [] [p] [].
Proof. unfold extend, add_pair. by rewrite !app_nil_r. Qed.

Lemma add_bond_extend opt b : add_bond opt b = extend opt [] [] [b].
Proof. unfold extend, add_bond. by rewrite !app_nil_r. Qed.

(** ** The stages of the assembly *)

Lemma make_optimizer_empty job d opt :
  make_optimizer job d = Ok opt →
  states opt = [] ∧ pairs opt = [] ∧ bonds opt = [] ∧ angles opt = [].
Proof.
  unfold make_optimizer. intros H. repeat inv_bind H. by injection H as <-.
Qed.

Lemma state_step_inv w job opt entry opt' :
  state_step w job opt entry = Ok opt' →
  ∃ s, opt' = extend opt [s] [] [] ∧ state_of w job entry s.
Proof.
  unfold state_step. intros H. repeat inv_bind H. injection H as <-.
  eexists. split.
  - apply add_state_extend.
  - unfold traj_file_path in *. destruct a; try done.
    injection Ha0 as <-. by exists s.
Qed.

Lemma foldM_state_step w job opt entries opt' :
  foldM (state_step w job) opt entries = Ok opt' →
  ∃ ss, opt' = extend opt ss [] [] ∧ Forall2 (state_of w job) entries ss.
Proof.
  revert opt. induction entries as [|entry entries IH]; intros opt H; simpl in H.
  - injection H as <-. exists []. by rewrite extend_nil.
  - inv_bind H. apply state_step_inv in Ha as (s & -> & Hs).
    apply IH in H as (ss & -> & Hss). exists (s :: ss).
    rewrite extend_extend. split; [done | by constructor].
Qed.

Lemma pair_step_inv w job opt prev entry opt' potential :
  pair_step w job (opt, prev) entry = Ok (opt', potential) →
  ∃ p, opt' = extend opt [] [p] [] ∧ pair_of w job entry p
       ∧ potential = Some (pr_potential p)
       ∧ choose_potential w job opt prev entry = Ok potential.
Proof.
  unfold pair_step. simpl. intros H. repeat inv_bind H. injection H as <- <-.
  unfold read_potential in Ha2. destruct a as [p|]; [|done]. injection Ha2 as <-.
  eexists. split_and!.
  - apply add_pair_extend.
  - unfold pair_of. simpl. split_and!; [done..|]. by exists opt, prev.
  - done.
  - done.
Qed.

Lemma foldM_pair_step w job opt prev entries opt' potential :
  foldM (pair_step w job) (opt, prev) entries = Ok (opt', potential) →
  ∃ ps, opt' = extend opt [] ps [] ∧ Forall2 (pair_of w job) entries ps.
Proof.
  revert opt prev. induction entries as [|entry entries IH]; intros opt prev H; simpl in H.
  - injection H as <- <-. exists []. by rewrite extend_nil.
  - inv_bind H. destruct a as [opt1 prev1].
    apply pair_step_inv in Ha as (p & -> & Hp & _).
    apply IH in H as (ps & -> & Hps). exists (p :: ps).
    rewrite extend_extend. split; [done | by constructor].
Qed.

Lemma foldM_bond_step opt entries opt' :
  foldM bond_step opt entries = Ok opt' →
  ∃ bs, opt' = extend opt [] [] bs ∧ Forall2 (λ e b, make_bond e = Ok b) entries bs.
Proof.
  revert opt. induction entries as [|entry entries IH]; intros opt H; simpl in H.
  - injection H as <-. exists []. by rewrite extend_nil.
  - inv_bind H. unfold bond_step in Ha. inv_bind Ha. injection Ha as <-.
    apply IH in H as (bs & -> & Hbs). exists (a0 :: bs).
    split; [|by constructor].
    by rewrite add_bond_extend, extend_extend.
Qed.

Lemma add_states_inv w job opt opt' :
  add_states w job opt = Ok opt' →
  ∃ v entries ss, sp job !! "states" = Some v ∧ py_iter v = Ok entries
    ∧ opt' = extend opt ss [] [] ∧ Forall2 (state_of w job) entries ss.
Proof.
  unfold add_states. intros H. repeat inv_bind H.
  apply sp_attr_Ok in Ha. apply foldM_state_step in H as (ss & -> & Hss).
  by exists a, a0, ss.
Qed.

Lemma add_pairs_inv w job opt opt' :
  add_pairs w job opt = Ok opt' →
  ∃ v entries ps, sp job !! "pairs" = Some v ∧ py_iter v = Ok entries
    ∧ opt' = extend opt [] ps [] ∧ Forall2 (pair_of w job) entries ps.
Proof.
  unfold add_pairs. intros H. repeat inv_bind H. injection H as <-.
  apply sp_attr_Ok in Ha. destruct a1 as [opt1 potential].
  apply foldM_pair_step in Ha1 as (ps & -> & Hps).
  by exists a, a0, ps.
Qed.

Lemma add_bonds_inv job opt opt' :
  add_bonds job opt = Ok opt' →
  ∃ v bs, sp job !! "bonds" = Some v ∧ opt' = extend opt [] [] bs
    ∧ if py_is_none v then bs = []
      else ∃ entries, py_iter v = Ok entries
                      ∧ Forall2 (λ e b, make_bond e = Ok b) entries bs.
Proof.
  unfold add_bonds. intros H. inv_bind H. apply sp_attr_Ok in Ha.
  destruct (py_is_none a) eqn:Hnone.
  - injection H as <-. exists a, []. rewrite Hnone, extend_nil. done.
  - inv_bind H. apply foldM_bond_step in H as (bs & -> & Hbs).
    exists a, bs. rewrite Hnone. split_and!; [done..|]. by exists a0.
Qed.

(** What a successful assembly hands on: the optimiser built from the
    hyperparameters, with one state per state entry, one pair per pair entry,
    one bond per bond entry (none when [bonds] is [None]), and no angle. *)
Lemma assemble_inv w job d opt :
  assemble w job d = Ok opt →
  make_optimizer job d
    = Ok (mkMSIBI (integrator opt) (integrator_kwargs opt) (dt opt)
            (gsd_period opt) (n_iterations opt) (n_steps opt) [] [] [] [])
  ∧ angles opt = []
  ∧ (∃ v entries, sp job !! "states" = Some v ∧ py_iter v = Ok entries
       ∧ Forall2 (state_of w job) entries (states opt))
  ∧ (∃ v entries, sp job !! "pairs" = Some v ∧ py_iter v = Ok entries
       ∧ Forall2 (pair_of w job) entries (pairs opt))
  ∧ (∃ v, sp job !! "bonds" = Some v
       ∧ if py_is_none v then bonds opt = []
         else ∃ entries, py_iter v = Ok entries
                ∧ Forall2 (λ e b, make_bond e = Ok b) entries (bonds opt)).
Proof.
  unfold assemble. intros H. repeat inv_bind H. injection H as <-.
  pose proof (make_optimizer_empty _ _ _ Ha) as (Hs & Hp & Hb & Han).
  apply add_states_inv in Ha0 as (vs & es & ss & Hvs & Hes & -> & Hss).
  apply add_pairs_inv in Ha1 as (vp & ep & ps & Hvp & Hep & -> & Hps).
  apply add_bonds_inv in Ha2 as (vb & bs & Hvb & -> & Hbs).
  rewrite !extend_extend. unfold extend. simpl.
  rewrite Hs, Hp, Hb, Han. simpl. rewrite !app_nil_r.
  split_and!.
  - destruct a. simpl in *. by subst.
  - done.
  - by exists vs, es.
  - by exists vp, ep.
  - by exists vb.
Qed.

(** ** One run of [optimize] *)

(** The run, step by step: [done] is cleared; the assembly and the evaluation
    of the call's arguments either raise, leaving only that write behind, or
    give the problem and the arguments the optimiser is called with; the
    optimiser raises or returns; only after it returned are [dr], [pot_r] and
    [done = True] written, in this order. *)
Lemma optimize_unfold w job st :
  optimize w job st =
  let d1 := <["done" := VBool false]> (doc st) in
  let ev1 := ESetDoc "done" (VBool false) in
  match assemble w job d1 with
  | Raise e => (Raise e, mkStore d1 (log st ++ [ev1]))
  | Ok opt =>
      match runner_args job with
      | Raise e => (Raise e, mkStore d1 (log st ++ [ev1]))
      | Ok args =>
          match optimize_pairs w opt args with
          | Raise e => (Raise e, mkStore d1 (log st ++ [ev1; ERunnerCall opt args]))
          | Ok r =>
              (Ok (),
               mkStore (<["done" := VBool true]>
                          (<["pot_r" := r.2]> (<["dr" := r.1]> d1)))
                 (log st ++ [ev1; ERunnerCall opt args; ERunnerReturn r.1 r.2;
                             ESetDoc "dr" r.1; ESetDoc "pot_r" r.2;
                             ESetDoc "done" (VBool true)]))
          end
      end
  end.
Proof.
  unfold optimize, mbind, M_mbind, M_bind, doc_set, read_doc, lift,
    call_optimize_pairs.
  cbn [doc log]. destruct (assemble w job _) as [opt|e]; [|done].
  destruct (runner_args job) as [args|e]; [|done].
  destruct (optimize_pairs w opt args) as [r|e]; cbn [doc log fst snd].
  - by rewrite <- !app_assoc.
  - by rewrite <- !app_assoc.
Qed.

Lemma new_events_unfold w job st :
  new_events w job st =
  let ev1 := ESetDoc "done" (VBool false) in
  match assemble w job (<["done" := VBool false]> (doc st)) with
  | Raise e => [ev1]
  | Ok opt =>
      match runner_args job with
      | Raise e => [ev1]
      | Ok args =>
          match optimize_pairs w opt args with
          | Raise e => [ev1; ERunnerCall opt args]
          | Ok r => [ev1; ERunnerCall opt args; ERunnerReturn r.1 r.2;
                     ESetDoc "dr" r.1; ESetDoc "pot_r" r.2;
                     ESetDoc "done" (VBool true)]
          end
      end
  end.
Proof.
  unfold new_events. rewrite optimize_unfold. cbn zeta.
  destruct (assemble w job _) as [opt|e]; cbn [snd log];
    [|by rewrite drop_app_length].
  destruct (runner_args job) as [args|e]; cbn [snd log];
    [|by rewrite drop_app_length].
  destruct (optimize_pairs w opt args) as [r|e]; cbn [snd log];
    by rewrite drop_app_length.
Qed.

(** The problem and the arguments the optimiser is called with are the
    assembled ones. *)
Lemma runner_call_inv w job st opt args :
  ERunnerCall opt args ∈ new_events w job st →
  assemble w job (<["done" := VBool false]> (doc st)) = Ok opt
  ∧ runner_args job = Ok args.
Proof.
  rewrite new_events_unfold. cbn zeta.
  destruct (assemble w job _) as [opt'|e].
  2: { intros H. apply list_elem_of_singleton in H. done. }
  destruct (runner_args job) as [args'|e].
  2: { intros H. apply list_elem_of_singleton in H. done. }
  intros H.
  assert (ERunnerCall opt args = ERunnerCall opt' args') as [= -> ->]; [|done].
  destruct (optimize_pairs w opt' args') as [r|e];
    repeat (apply elem_of_cons in H as [H|H]; [try done|]);
    by apply elem_of_nil in H.
Qed.

(** ** The completion tracker *)

Lemma done_cleared_in_progress (d : gmap string value) :
  tracker_state_of (<["done" := VBool false]> d) = Some IN_PROGRESS.
Proof. unfold tracker_state_of. by rewrite lookup_insert_eq. Qed.

Lemma done_set_complete (d : gmap string value) :
  tracker_state_of (<["done" := VBool true]> d) = Some COMPLETE.
Proof. unfold tracker_state_of. by rewrite lookup_insert_eq. Qed.

Lemma complete_truthy (d : gmap string value) :
  tracker_state_of d = Some COMPLETE ↔ d !! "done" = Some (VBool true).
Proof.
  unfold tracker_state_of.
  destruct (d !! "done") as [[| [|] | | | | | |]|]; split; congruence.
Qed.

(** C7: the [done] flag follows NOT_STARTED -> IN_PROGRESS -> COMPLETE.  A
    document without [done] is NOT_STARTED and the label [completed] does
    not hold; the first effect of [optimize] is the write [done = False]; a
    run that returns leaves the document COMPLETE with [dr] and [pot_r] in
    it, written after the optimiser returned and before [done = True]; a run
    that raises leaves it IN_PROGRESS and has written no [done = True];
    wherever [done = True] is written, the optimiser has returned before;
    and on a COMPLETE document the post-condition holds, so the operation is
    not entered again and the store is untouched. *)
Theorem C7_done_flag (w : World) (job : Job) (st : store) :
  (doc st !! "done" = None →
     tracker_state_of (doc st) = Some NOT_STARTED
     ∧ py_truthy (completed (doc st)) = false
     ∧ (run_operation w job st).1 = ((optimize w job st).1 ≫= λ _, Ok true)
     ∧ (run_operation w job st).2 = (optimize w job st).2)
  ∧ (∃ rest, new_events w job st = ESetDoc "done" (VBool false) :: rest)
  ∧ (∀ u, (optimize w job st).1 = Ok u →
       tracker_state_of (doc (optimize w job st).2) = Some COMPLETE
       ∧ ∃ opt args dr pot_r,
           optimize_pairs w opt args = Ok (dr, pot_r)
           ∧ doc (optimize w job st).2 !! "dr" = Some dr
           ∧ doc (optimize w job st).2 !! "pot_r" = Some pot_r
           ∧ new_events w job st =
               [ESetDoc "done" (VBool false); ERunnerCall opt args;
                ERunnerReturn dr pot_r; ESetDoc "dr" dr; ESetDoc "pot_r" pot_r;
                ESetDoc "done" (VBool true)])
  ∧ (∀ e, (optimize w job st).1 = Raise e →
       tracker_state_of (doc (optimize w job st).2) = Some IN_PROGRESS
       ∧ (ESetDoc "done" (VBool true) ∉ new_events w job st)
       ∧ (∀ dr pot_r, ERunnerReturn dr pot_r ∉ new_events w job st))
  ∧ (∀ pre post,
       new_events w job st = pre ++ ESetDoc "done" (VBool true) :: post →
       post = []
       ∧ ∃ opt args dr pot_r,
           optimize_pairs w opt args = Ok (dr, pot_r)
           ∧ pre = [ESetDoc "done" (VBool false); ERunnerCall opt args;
                    ERunnerReturn dr pot_r; ESetDoc "dr" dr; ESetDoc "pot_r" pot_r])
  ∧ (tracker_state_of (doc st) = Some COMPLETE →
       py_truthy (completed (doc st)) = true
       ∧ run_operation w job st = (Ok false, st)).
Proof.
  split_and!.
  - intros Hnone. unfold tracker_state_of, run_operation, completed.
    rewrite Hnone. simpl. split_and!; try done.
    + unfold mbind, M_mbind, M_bind. by destruct (optimize w job st) as [[[]|e] st'].
    + unfold mbind, M_mbind, M_bind. by destruct (optimize w job st) as [[[]|e] st'].
  - rewrite new_events_unfold. cbn zeta.
    destruct (assemble w job _); [|by eexists].
    destruct (runner_args job); [|by eexists].
    destruct (optimize_pairs w _ _); by eexists.
  - intros u. rewrite new_events_unfold, optimize_unfold. cbn zeta.
    destruct (assemble w job _) as [opt|]; [|done].
    destruct (runner_args job) as [args|]; [|done].
    destruct (optimize_pairs w opt args) as [[dr pot_r]|] eqn:Hrun; [|done].
    intros _. cbn [fst snd doc]. split; [apply done_set_complete|].
    exists opt, args, dr, pot_r. split_and!; [done| | |done].
    + rewrite lookup_insert_ne, lookup_insert_ne, lookup_insert_eq; done.
    + rewrite lookup_insert_ne, lookup_insert_eq; done.
  - intros e. rewrite new_events_unfold, optimize_unfold. cbn zeta.
    destruct (assemble w job _) as [opt|]; cbn [fst snd doc].
    2: { intros _. split; [apply done_cleared_in_progress|].
         split; [|intros dr pot_r]; intros [=]%list_elem_of_singleton. }
    destruct (runner_args job) as [args|]; cbn [fst snd doc].
    2: { intros _. split; [apply done_cleared_in_progress|].
         split; [|intros dr pot_r]; intros [=]%list_elem_of_singleton. }
    destruct (optimize_pairs w opt args) as [r|]; cbn [fst snd doc]; [done|].
    intros _. split; [apply done_cleared_in_progress|].
    split; [|intros dr pot_r]; intros H;
      repeat (apply elem_of_cons in H as [H|H]; [done|]);
      by apply elem_of_nil in H.
  - intros pre post. rewrite new_events_unfold. cbn zeta.
    destruct (assemble w job _) as [opt|].
    2: { intros H. repeat (destruct pre as [|? pre]; simplify_eq/=). }
    destruct (runner_args job) as [args|].
    2: { intros H. repeat (destruct pre as [|? pre]; simplify_eq/=). }
    destruct (optimize_pairs w opt args) as [[dr pot_r]|] eqn:Hrun.
    2: { intros H. repeat (destruct pre as [|? pre]; simplify_eq/=). }
    intros H. cbn [fst snd] in H.
    repeat (destruct pre as [|? pre]; simplify_eq/=).
    split; [done|]. by exists opt, args, dr, pot_r.
  - intros Hc. apply complete_truthy in Hc.
    unfold run_operation, completed. by rewrite Hc.
Qed.

Lemma C7_done_flag_witness :
  tracker_state_of (doc fresh_store) = Some NOT_STARTED
  ∧ tracker_state_of (doc (optimize sample_world sample_job fresh_store).2)
    = Some COMPLETE
  ∧ run_operation sample_world sample_job
      (optimize sample_world sample_job fresh_store).2
    = (Ok false, (optimize sample_world sample_job fresh_store).2).
Proof.
  pose proof (C7_done_flag sample_world sample_job fresh_store)
    as (Hstart & _ & Hok & _ & _ & _).
  pose proof (C7_done_flag sample_world sample_job
                (optimize sample_world sample_job fresh_store).2)
    as (_ & _ & _ & _ & _ & Hskip).
  assert (Hrun : (optimize sample_world sample_job fresh_store).1 = Ok ())
    by (vm_compute; reflexivity).
  destruct (Hok () Hrun) as [Hcomplete _].
  split_and!.
  - apply Hstart. vm_compute. reflexivity.
  - exact Hcomplete.
  - apply Hskip. exact Hcomplete.
Defined.

(** ** The problem handed to the optimiser *)

Lemma problem_handed_Some evs opt :
  problem_handed evs = Some opt → ∃ args, ERunnerCall opt args ∈ evs.
Proof.
  unfold problem_handed. induction evs as [|ev evs IH]; [done|].
  destruct ev as [k v|opt' args|dr pot_r]; simpl.
  - intros [args H]%IH. exists args. by right.
  - intros [= ->]. exists args. by left.
  - intros [args H]%IH. exists args. by right.
Qed.

(** C2: the claim is that every Angle descriptor built from the statepoint
    is part of the problem handed to the optimiser.  The code builds the
    descriptor and drops it: whatever the statepoint declares, the problem
    the optimiser is called with holds no angle. *)
Theorem C2_angles_not_handed_on (w : World) (job : Job) (st : store)
    (opt : MSIBI) (args : RunnerArgs) :
  ERunnerCall opt args ∈ new_events w job st → angles opt = [].
Proof.
  intros [Hasm _]%runner_call_inv.
  by apply assemble_inv in Hasm as (_ & Hangles & _).
Qed.

Lemma C2_angles_not_handed_on_witness :
  sp angle_job !! "angles" = Some (VList [harmonic_angle])
  ∧ make_angle harmonic_angle
    = Ok (mkAngle (VStr "A") (VStr "B") (VStr "A") (Some (VFloat 25 0, VFloat 2 0)))
  ∧ ∃ opt args, ERunnerCall opt args ∈ new_events sample_world angle_job fresh_store
                ∧ angles opt = [].
Proof.
  split; [vm_compute; reflexivity|]. split; [vm_compute; reflexivity|].
  destruct (problem_handed (new_events sample_world angle_job fresh_store))
    as [opt|] eqn:Hopt; [|vm_compute in Hopt; discriminate].
  apply problem_handed_Some in Hopt as [args Hin].
  exists opt, args. split; [exact Hin|].
  exact (C2_angles_not_handed_on sample_world angle_job fresh_store opt args Hin).
Defined.

Lemma make_bond_spec entry b : make_bond entry = Ok b → bond_of entry b.
Proof.
  unfold make_bond, bond_of. intros H. repeat inv_bind H.
  destruct (py_eq_str a1 "harmonic") eqn:Hform.
  - repeat inv_bind H. injection H as <-. simpl.
    split_and!; [done..|]. exists a1. rewrite Hform. split; [done|].
    by exists a2, a3.
  - injection H as <-. simpl.
    split_and!; [done..|]. exists a1. by rewrite Hform.
Qed.

(** C6: when the statepoint's [bonds] is [None], the problem handed to the
    optimiser holds no bond; when it is a list, the problem holds exactly one
    Bond per entry, in order, with the entry's two types, carrying the
    harmonic parameters [k] and [r0] of the entry exactly when its [form] is
    "harmonic" and no interaction parameters otherwise. *)
Theorem C6_bonds (w : World) (job : Job) (st : store)
    (opt : MSIBI) (args : RunnerArgs) :
  ERunnerCall opt args ∈ new_events w job st →
  (sp job !! "bonds" = Some VNone → bonds opt = [])
  ∧ (∀ entries, sp job !! "bonds" = Some (VList entries) →
       Forall2 bond_of entries (bonds opt)).
Proof.
  intros [Hasm _]%runner_call_inv.
  apply assemble_inv in Hasm as (_ & _ & _ & _ & (v & Hv & Hbonds)).
  split.
  - intros Hnone. rewrite Hnone in Hv. by injection Hv as <-.
  - intros entries Hlist. rewrite Hlist in Hv. injection Hv as <-.
    simpl in Hbonds. destruct Hbonds as (es & [= <-] & Hall).
    eapply Forall2_impl; [exact Hall|]. apply make_bond_spec.
Qed.

Lemma C6_bonds_witness :
  (∃ opt args, ERunnerCall opt args ∈ new_events sample_world sample_job fresh_store
               ∧ bonds opt = [])
  ∧ (∃ opt args, ERunnerCall opt args ∈ new_events sample_world bond_job fresh_store
               ∧ Forall2 bond_of [harmonic_bond; fene_bond] (bonds opt)
               ∧ bonds opt =
                 [mkBond (VStr "A") (VStr "B") (Some (VFloat 100 0, VFloat 12 (-1)));
                  mkBond (VStr "B") (VStr "B") None]).
Proof.
  split.
  - destruct (problem_handed (new_events sample_world sample_job fresh_store))
      as [opt|] eqn:Hopt; [|vm_compute in Hopt; discriminate].
    apply problem_handed_Some in Hopt as [args Hin].
    exists opt, args. split; [exact Hin|].
    apply (C6_bonds sample_world sample_job fresh_store opt args Hin).
    vm_compute. reflexivity.
  - destruct (problem_handed (new_events sample_world bond_job fresh_store))
      as [opt|] eqn:Hopt; [|vm_compute in Hopt; discriminate].
    pose proof Hopt as Hopt'.
    apply problem_handed_Some in Hopt as [args Hin].
    exists opt, args. split; [exact Hin|]. split.
    + apply (C6_bonds sample_world bond_job fresh_store opt args Hin).
      vm_compute. reflexivity.
    + vm_compute in Hopt'. injection Hopt' as <-. reflexivity.
Defined.

(** ** Initial potentials *)

Lemma choose_potential_explicit w job opt prev d x :
  dict_get "potential" d = Some x →
  choose_potential w job opt prev (VDict d) = Ok (Some x).
Proof. unfold choose_potential. simpl. by intros ->. Qed.

Lemma choose_potential_mie w job opt prev d cutoff :
  dict_get "potential" d = None →
  sp job !! "initial_potential" = Some (VStr "mie") →
  sp job !! "potential_cutoff" = Some cutoff →
  choose_potential w job opt prev (VDict d)
  = Ok (Some (VCall "mie" [cutoff; VFloat 1 0; VFloat 1 0])).
Proof.
  unfold choose_potential, sp_attr. simpl. by intros -> -> ->.
Qed.

Lemma choose_potential_morse w job opt prev d r :
  dict_get "potential" d = None →
  sp job !! "initial_potential" = Some (VStr "morse") →
  pot_r_before w opt = Ok r →
  choose_potential w job opt prev (VDict d)
  = Ok (Some (VCall "morse" [r; VFloat 1 0; VFloat 1 0])).
Proof.
  unfold choose_potential, sp_attr. simpl. by intros -> -> ->.
Qed.

(** With any other family no branch assigns: the variable keeps its binding. *)
Lemma choose_potential_other w job opt prev d family :
  dict_get "potential" d = None →
  sp job !! "initial_potential" = Some family →
  py_eq_str family "morse" = false → py_eq_str family "mie" = false →
  choose_potential w job opt prev (VDict d) = Ok prev.
Proof.
  unfold choose_potential, sp_attr, py_has_key. intros -> -> Hmorse Hmie.
  cbn -[py_eq_str]. by rewrite Hmorse, Hmie.
Qed.

(** C1: the claim is that a family other than "morse" and "mie" raises
    rather than leaving the potential unset.  The code has no branch for it:
    under the family "lj", a pair without explicit potential that follows a
    pair with one is handed to the optimiser with the previous pair's
    potential, and assembly completes; when it is the first pair, the read of
    the unbound local variable raises, which is not a family error. *)
Theorem C1_unknown_family_falls_through :
  sp stale_job !! "initial_potential" = Some (VStr "lj")
  ∧ (optimize sample_world stale_job fresh_store).1 = Ok ()
  ∧ (map pr_potential ∘ pairs <$>
       problem_handed (new_events sample_world stale_job fresh_store))
    = Some [VStr "table.txt"; VStr "table.txt"]
  ∧ (optimize sample_world unbound_job fresh_store).1
    = Raise (UnboundLocalError "potential").
Proof. split_and!; vm_compute; reflexivity. Qed.

(** C8: for every pair entry that has the key [potential], the Pair handed to
    the optimiser carries exactly the entry's value, and the choice of the
    potential for such an entry reads neither the family nor anything else
    of the job or the world. *)
Theorem C8_explicit_potential (w : World) (job : Job) (st : store)
    (opt : MSIBI) (args : RunnerArgs) (entries : list value) :
  ERunnerCall opt args ∈ new_events w job st →
  sp job !! "pairs" = Some (VList entries) →
  Forall2 (λ entry p,
             ∀ d x, entry = VDict d → dict_get "potential" d = Some x →
               pr_potential p = x
               ∧ ∀ w' job' opt' prev,
                   choose_potential w' job' opt' prev entry = Ok (Some x))
    entries (pairs opt).
Proof.
  intros [Hasm _]%runner_call_inv Hpairs.
  apply assemble_inv in Hasm as (_ & _ & _ & (v & es & Hv & Hes & Hall) & _).
  rewrite Hpairs in Hv. injection Hv as <-. injection Hes as <-.
  eapply Forall2_impl; [exact Hall|].
  intros entry p (_ & _ & _ & opt' & prev & Hchoose) d x -> Hx.
  rewrite (choose_potential_explicit _ _ _ _ _ x Hx) in Hchoose.
  injection Hchoose as <-. split; [done|].
  intros w' job' opt'' prev'. by apply choose_potential_explicit.
Qed.

Lemma C8_explicit_potential_witness :
  ∃ opt args,
    ERunnerCall opt args ∈ new_events sample_world explicit_job fresh_store
    ∧ map pr_potential (pairs opt)
      = [VStr "table.txt"; VCall "mie" [VFloat 5 0; VFloat 1 0; VFloat 1 0]]
    ∧ ∃ p ps, pairs opt = p :: ps ∧ pr_potential p = VStr "table.txt".
Proof.
  destruct (problem_handed (new_events sample_world explicit_job fresh_store))
    as [opt|] eqn:Hopt; [|vm_compute in Hopt; discriminate].
  pose proof Hopt as Hopt'.
  apply problem_handed_Some in Hopt as [args Hin].
  exists opt, args. split; [exact Hin|]. split.
  - vm_compute in Hopt'. injection Hopt' as <-. reflexivity.
  - assert (Hsp : sp explicit_job !! "pairs" = Some (VList [explicit_pair; plain_pair]))
      by (vm_compute; reflexivity).
    pose proof (C8_explicit_potential sample_world explicit_job fresh_store
                  opt args _ Hin Hsp) as Hall.
    inversion Hall as [|e p es ps Hp _]; subst.
    exists p, ps. split; [reflexivity|].
    apply (Hp _ (VStr "table.txt") eq_refl). reflexivity.
Defined.

(** ** Statepoint fields the declaration does not define *)

Lemma undeclared_field (k : string) (params : list value) :
  k ∉ get_parameters.1 → dict_zip get_parameters.1 params !! k = None.
Proof. apply dict_zip_notin. Qed.

Lemma head_correction_undeclared : "head_correction" ∉ get_parameters.1.
Proof. apply (bool_decide_unpack _). by vm_compute. Qed.

Lemma r_min_undeclared : "r_min" ∉ get_parameters.1.
Proof. apply (bool_decide_unpack _). by vm_compute. Qed.

(** When everything the body reads before it succeeds, the failed read is
    that of [job.sp.head_correction]. *)
Lemma pair_step_reaches_head w job opt prev pair potential p :
  sp job !! "head_correction" = None →
  choose_potential w job opt prev pair = Ok potential →
  is_ok (py_getitem pair "type1") → is_ok (py_getitem pair "type2") →
  read_potential potential = Ok p →
  pair_step w job (opt, prev) pair = Raise (AttributeError "job.sp" "head_correction").
Proof.
  intros Hhead Hch Ht1 Ht2 Hp. unfold pair_step. cbn [fst snd]. rewrite Hch.
  destruct (py_getitem pair "type1"); [|done].
  destruct (py_getitem pair "type2"); [|done].
  cbn [mbind result_mbind result_bind]. rewrite Hp.
  cbn [mbind result_mbind result_bind].
  by rewrite (sp_attr_missing _ _ Hhead).
Qed.

Lemma assemble_no_head w job d v first rest :
  sp job !! "head_correction" = None →
  sp job !! "pairs" = Some v → py_iter v = Ok (first :: rest) →
  ∃ e, assemble w job d = Raise e.
Proof.
  intros Hhead Hpairs Hiter.
  destruct (assemble w job d) as [opt|e] eqn:Hasm; [|by eexists].
  apply assemble_inv in Hasm as (_ & _ & _ & (v' & es & Hv' & Hes & Hall) & _).
  rewrite Hpairs in Hv'. injection Hv' as <-.
  rewrite Hiter in Hes. injection Hes as <-.
  inversion Hall as [|? p ? ? (_ & _ & Hread & _) _]; subst.
  apply sp_attr_Ok in Hread. congruence.
Qed.

Lemma runner_args_no_r_min job :
  sp job !! "r_min" = None → ∃ e, runner_args job = Raise e.
Proof.
  intros Hr. unfold runner_args.
  destruct (sp_attr job "num_rdf_frames") as [?|e]; [|by eexists].
  destruct (sp_attr job "potential_cutoff") as [?|e]; [|by eexists].
  rewrite (sp_attr_missing _ _ Hr). by eexists.
Qed.

(** C9: no statepoint built from the declared parameter names has the key
    [head_correction], whatever the candidate values; for such a statepoint
    with at least one pair entry, [optimize] never returns and never calls
    the optimiser; and once the steps before it succeed for the first pair
    entry (the optimiser is constructed, the states are added, the entry's
    potential and types are read), the run ends in the failed read of
    [job.sp.head_correction]. *)
Theorem C9_head_correction_undefined (w : World) (ws_ : string)
    (params : list value) (st : store) (v first : value) (rest : list value) :
  let job := mkJob (dict_zip get_parameters.1 params) ws_ in
  sp job !! "pairs" = Some v → py_iter v = Ok (first :: rest) →
  sp job !! "head_correction" = None
  ∧ (∃ e, (optimize w job st).1 = Raise e)
  ∧ (∀ opt args, ERunnerCall opt args ∉ new_events w job st)
  ∧ (∀ opt0 opt1 potential p,
       make_optimizer job (<["done" := VBool false]> (doc st)) = Ok opt0 →
       add_states w job opt0 = Ok opt1 →
       choose_potential w job opt1 None first = Ok potential →
       is_ok (py_getitem first "type1") → is_ok (py_getitem first "type2") →
       read_potential potential = Ok p →
       (optimize w job st).1 = Raise (AttributeError "job.sp" "head_correction")).
Proof.
  intros job Hpairs Hiter.
  assert (Hhead : sp job !! "head_correction" = None)
    by apply undeclared_field, head_correction_undeclared.
  destruct (assemble_no_head w job (<["done" := VBool false]> (doc st))
              v first rest Hhead Hpairs Hiter) as [e He].
  split_and!.
  - done.
  - exists e. rewrite optimize_unfold. cbn zeta. by rewrite He.
  - intros opt args [Hasm _]%runner_call_inv. congruence.
  - intros opt0 opt1 potential p Hmk Hst Hch Ht1 Ht2 Hp.
    rewrite optimize_unfold. cbn zeta.
    assert (Hasm : assemble w job (<["done" := VBool false]> (doc st))
                   = Raise (AttributeError "job.sp" "head_correction")).
    { unfold assemble. rewrite Hmk. cbn [mbind result_mbind result_bind].
      rewrite Hst. cbn [mbind result_mbind result_bind].
      unfold add_pairs. rewrite (proj2 (sp_attr_Ok job "pairs" v) Hpairs).
      cbn [mbind result_mbind result_bind]. rewrite Hiter.
      cbn [mbind result_mbind result_bind foldM].
      by rewrite (pair_step_reaches_head w job opt1 None first potential p). }
    by rewrite Hasm.
Qed.

Lemma C9_head_correction_undefined_witness :
  sp (declared_job (VList [plain_pair])) !! "head_correction" = None
  ∧ (optimize sample_world (declared_job (VList [plain_pair])) fresh_store).1
    = Raise (AttributeError "job.sp" "head_correction").
Proof.
  destruct (C9_head_correction_undefined sample_world sample_ws
              [VFloat 5 0; VInt 101; VInt 5; VBool true; VBool false; VNone;
               VStr "hoomd.md.methods.NVT"; VDict [("kT", VFloat 1 0)];
               VFloat 1 (-3); VInt 1000; VStr "mie"; VInt 20; VFloat 1 6;
               VList [sample_state]; VList [plain_pair]; VNone; VNone]
              fresh_store (VList [plain_pair]) plain_pair [])
    as (Hhead & _ & _ & Hreach).
  - vm_compute. reflexivity.
  - reflexivity.
  - split; [exact Hhead|].
    eapply Hreach.
    + vm_compute. reflexivity.
    + vm_compute. reflexivity.
    + vm_compute. reflexivity.
    + vm_compute. exact I.
    + vm_compute. exact I.
    + reflexivity.
Defined.

(** C10: no statepoint built from the declared parameter names has the key
    [r_min], whatever the candidate values; for such a statepoint [optimize]
    never returns, never calls the optimiser, and leaves the document
    IN_PROGRESS; and once the assembly before the call succeeds, the run
    ends in the failed read of [job.sp.r_min] among the call's arguments. *)
Theorem C10_r_min_undefined (w : World) (ws_ : string)
    (params : list value) (st : store) :
  let job := mkJob (dict_zip get_parameters.1 params) ws_ in
  sp job !! "r_min" = None
  ∧ (∃ e, (optimize w job st).1 = Raise e)
  ∧ (∀ opt args, ERunnerCall opt args ∉ new_events w job st)
  ∧ tracker_state_of (doc (optimize w job st).2) = Some IN_PROGRESS
  ∧ (∀ opt, assemble w job (<["done" := VBool false]> (doc st)) = Ok opt →
       (optimize w job st).1 = Raise (AttributeError "job.sp" "r_min")).
Proof.
  intros job.
  assert (Hr : sp job !! "r_min" = None)
    by apply undeclared_field, r_min_undeclared.
  destruct (runner_args_no_r_min job Hr) as [e He].
  split_and!.
  - done.
  - rewrite optimize_unfold. cbn zeta.
    destruct (assemble w job _); [|by eexists]. rewrite He. by eexists.
  - intros opt args [_ Hargs]%runner_call_inv. congruence.
  - rewrite optimize_unfold. cbn zeta.
    destruct (assemble w job _); [|apply done_cleared_in_progress].
    rewrite He. apply done_cleared_in_progress.
  - intros opt Hasm. rewrite optimize_unfold. cbn zeta. rewrite Hasm.
    apply assemble_inv in Hasm as (_ & _ & _ & _ & (vb & Hvb & _)).
    assert (Hbonds : params !! 15%nat = Some vb).
    { rewrite <- Hvb. symmetry.
      apply dict_zip_lookup; [apply NoDup_declared_names | reflexivity]. }
    apply lookup_lt_Some in Hbonds.
    destruct (lookup_lt_is_Some_2 params 2%nat) as [frames Hframes]; [lia|].
    destruct (lookup_lt_is_Some_2 params 0%nat) as [cutoff Hcutoff]; [lia|].
    assert (Hf : sp_attr job "num_rdf_frames" = Ok frames).
    { apply sp_attr_Ok. rewrite <- Hframes.
      apply dict_zip_lookup; [apply NoDup_declared_names | reflexivity]. }
    assert (Hc : sp_attr job "potential_cutoff" = Ok cutoff).
    { apply sp_attr_Ok. rewrite <- Hcutoff.
      apply dict_zip_lookup; [apply NoDup_declared_names | reflexivity]. }
    unfold runner_args. rewrite Hf, Hc.
    cbn [mbind result_mbind result_bind].
    by rewrite (sp_attr_missing _ _ Hr).
Qed.

Lemma C10_r_min_undefined_witness :
  sp (declared_job (VList [])) !! "r_min" = None
  ∧ (optimize sample_world (declared_job (VList [])) fresh_store).1
    = Raise (AttributeError "job.sp" "r_min").
Proof.
  destruct (C10_r_min_undefined sample_world sample_ws
              [VFloat 5 0; VInt 101; VInt 5; VBool true; VBool false; VNone;
               VStr "hoomd.md.methods.NVT"; VDict [("kT", VFloat 1 0)];
               VFloat 1 (-3); VInt 1000; VStr "mie"; VInt 20; VFloat 1 6;
               VList [sample_state]; VList []; VNone; VNone]
              fresh_store)
    as (Hr & _ & _ & _ & Hreach).
  split; [exact Hr|].
  eapply Hreach. vm_compute. reflexivity.
Defined.

(** ** Path resolution *)

Lemma split_sep_nonempty s : split_sep s ≠ [].
Proof.
  destruct s as [|c s]; simpl; [done|].
  destruct (Ascii.eqb c "/"); [done|]. by destruct (split_sep s).
Qed.

Lemma split_sep_app a b :
  split_sep (a ++ String "/" b)%string = split_sep a ++ split_sep b.
Proof.
  induction a as [|c a IH]; simpl; [done|].
  rewrite IH. destruct (Ascii.eqb c "/"); [done|].
  pose proof (split_sep_nonempty a). by destruct (split_sep a).
Qed.

Lemma starts_with_sep_split s :
  starts_with_sep s = true → ∃ xs, split_sep s = "" :: xs.
Proof.
  destruct s as [|c s]; simpl; [done|]. intros ->. by eexists.
Qed.

Lemma split_head_empty s xs :
  split_sep s = "" :: xs → xs ≠ [] → starts_with_sep s = true.
Proof.
  destruct s as [|c s]; simpl.
  - by intros [= <-].
  - destruct (Ascii.eqb c "/"); [done|].
    pose proof (split_sep_nonempty s). by destruct (split_sep s).
Qed.

Lemma ends_with_sep_split s :
  ends_with_sep s = true → ∃ l, split_sep s = l ++ [""] ∧ l ≠ [].
Proof.
  induction s as [|c s IH]; [done|].
  destruct s as [|c' s'].
  - simpl. intros ->. by exists [""].
  - intros H. destruct IH as (l & Hl & Hne); [exact H|].
    change (split_sep (String c (String c' s')))
      with (if Ascii.eqb c "/" then "" :: split_sep (String c' s')
            else match split_sep (String c' s') with
                 | [] => [String c ""]
                 | x :: xs => String c x :: xs
                 end).
    rewrite Hl. destruct (Ascii.eqb c "/").
    + by exists ("" :: l).
    + destruct l as [|y l]; [done|]. by exists (String c y :: l).
Qed.

Lemma ends_with_sep_false s :
  last (split_sep s) ≠ Some "" → ends_with_sep s = false.
Proof.
  intros Hlast. destruct (ends_with_sep s) eqn:H; [|done].
  apply ends_with_sep_split in H as (l & Hl & _).
  rewrite Hl, last_snoc in Hlast. done.
Qed.

Lemma clean_inv c :
  clean c →
  String.eqb c "" = false ∧ String.eqb c "." = false ∧ String.eqb c ".." = false.
Proof.
  unfold clean.
  destruct (String.eqb c ""), (String.eqb c "."), (String.eqb c ".."); simpl;
    intuition.
Qed.

Lemma clean_neq c x : clean c → String.eqb x "" || String.eqb x ".." → c ≠ x.
Proof.
  intros (H1 & _ & H2)%clean_inv Hx ->. rewrite H1, H2 in Hx. done.
Qed.

Lemma last_clean cs x : Forall clean cs → last cs = Some x → clean x.
Proof.
  intros Hall Hlast. rewrite Forall_forall in Hall.
  apply Hall. by apply last_Some_elem_of.
Qed.

Lemma norm_step_clean n acc c : clean c → norm_step n acc c = acc ++ [c].
Proof.
  intros (H1 & H2 & H3)%clean_inv. unfold norm_step. by rewrite H1, H2, H3.
Qed.

Lemma foldl_norm_step_clean n acc cs :
  Forall clean cs → foldl (norm_step n) acc cs = acc ++ cs.
Proof.
  intros Hall. revert acc.
  induction Hall as [|c cs Hc _ IH]; intros acc; simpl.
  - by rewrite app_nil_r.
  - rewrite norm_step_clean, IH by done. by rewrite <- app_assoc.
Qed.

Lemma norm_step_up acc :
  Forall clean acc → norm_step 1 acc ".." = removelast acc.
Proof.
  intros Hall. unfold norm_step. simpl.
  rewrite bool_decide_eq_false_2; [done|].
  intros Hlast. apply (last_clean _ _ Hall) in Hlast. done.
Qed.

Lemma removelast_take {A} (l : list A) : removelast l = take (length l - 1) l.
Proof.
  rewrite removelast_firstn_len. f_equal. lia.
Qed.

Lemma Forall_removelast {A} (P : A → Prop) (l : list A) :
  Forall P l → Forall P (removelast l).
Proof. rewrite removelast_take. apply Forall_take. Qed.

Lemma removelast_twice {A} (l : list A) :
  removelast (removelast l) = take (length l - 2) l.
Proof.
  rewrite !removelast_take, length_take, take_take. f_equal. lia.
Qed.

Lemma append_nonempty a c b : String.eqb (a ++ String c b)%string "" = false.
Proof. by destruct a. Qed.

(** The loop of [normpath] over the components of an absolute workspace
    followed by two [..] and a relative target. *)
Lemma normalise_components wc tc :
  Forall clean wc → Forall clean tc →
  foldl (norm_step 1) [] ("" :: wc ++ [".."; ".."] ++ tc)
  = take (length wc - 2) wc ++ tc.
Proof.
  intros Hwc Htc. cbn [foldl].
  change (norm_step 1 [] "") with (@nil string).
  rewrite foldl_app, (foldl_norm_step_clean 1 [] wc Hwc).
  cbn [foldl app].
  rewrite (norm_step_up wc Hwc).
  rewrite (norm_step_up (removelast wc)) by (by apply Forall_removelast).
  rewrite foldl_norm_step_clean by done.
  by rewrite removelast_twice.
Qed.

Lemma path_join2_plain a b :
  String.eqb a "" = false → ends_with_sep a = false → starts_with_sep b = false →
  path_join2 a b = (a ++ String "/" b)%string.
Proof. unfold path_join2. by intros -> -> ->. Qed.

(** For a workspace [/c1/.../cn] (n >= 2) and a relative target [t1/.../tm],
    all components plain names, the resolved path is [/c1/.../c(n-2)/t1/.../tm]:
    the target, two directory levels above the workspace. *)
Lemma two_levels_up cwd ws_ t wc :
  split_sep ws_ = "" :: wc → Forall clean wc → (2 ≤ length wc)%nat →
  Forall clean (split_sep t) →
  abspath cwd (path_join ws_ [".."; ".."; t])
  = ("/" ++ join_sep (take (length wc - 2) wc ++ split_sep t))%string.
Proof.
  intros Hws Hwc Hlen Ht.
  assert (Hne : wc ≠ []) by (destruct wc; [simpl in Hlen; lia | done]).
  assert (Hstart : starts_with_sep ws_ = true) by (by eapply split_head_empty).
  assert (Hws_ne : String.eqb ws_ "" = false) by (by destruct ws_).
  assert (Hws_end : ends_with_sep ws_ = false).
  { apply ends_with_sep_false. rewrite Hws. intros Hlast.
    rewrite last_cons in Hlast. destruct (last wc) as [x|] eqn:Hx.
    - injection Hlast as ->. by apply (last_clean _ _ Hwc) in Hx.
    - by apply last_None in Hx. }
  assert (Ht_start : starts_with_sep t = false).
  { destruct (starts_with_sep t) eqn:H; [|done].
    apply starts_with_sep_split in H as [xs Hxs]. rewrite Hxs in Ht.
    by inversion Ht. }
  set (p1 := (ws_ ++ String "/" "..")%string).
  set (p2 := (p1 ++ String "/" "..")%string).
  set (p3 := (p2 ++ String "/" t)%string).
  assert (Hs1 : split_sep p1 = "" :: wc ++ [".."]).
  { unfold p1. by rewrite split_sep_app, Hws. }
  assert (Hs2 : split_sep p2 = "" :: wc ++ [".."; ".."]).
  { unfold p2. rewrite split_sep_app, Hs1. simpl. by rewrite <- app_assoc. }
  assert (Hs3 : split_sep p3 = "" :: wc ++ [".."; ".."] ++ split_sep t).
  { unfold p3. rewrite split_sep_app, Hs2. simpl. by rewrite <- app_assoc. }
  assert (Hj : path_join ws_ [".."; ".."; t] = p3).
  { unfold path_join. simpl.
    rewrite (path_join2_plain ws_ "..") by done. fold p1.
    rewrite (path_join2_plain p1 "..");
      [|apply append_nonempty| |done].
    2: { apply ends_with_sep_false. rewrite Hs1.
         change ("" :: wc ++ [".."]) with (("" :: wc) ++ [".."]).
         by rewrite last_snoc. }
    fold p2.
    rewrite (path_join2_plain p2 t);
      [done|apply append_nonempty| |done].
    apply ends_with_sep_false. rewrite Hs2.
    change ("" :: wc ++ [".."; ".."]) with (("" :: wc) ++ [".."; ".."]).
    rewrite (app_assoc _ [".."] [".."]). by rewrite last_snoc. }
  rewrite Hj. unfold abspath.
  assert (Hshape : ∃ c2 rest, p3 = String "/" (String c2 rest)
                              ∧ Ascii.eqb c2 "/" = false).
  { destruct ws_ as [|c0 s0]; [done|]. simpl in Hstart.
    apply Ascii.eqb_eq in Hstart as ->. simpl in Hws. injection Hws as Hs0.
    destruct s0 as [|c2 s2].
    - simpl in Hs0. subst wc. by inversion Hwc.
    - exists c2. eexists. split; [reflexivity|].
      destruct (Ascii.eqb c2 "/") eqn:Hc2; [|done].
      simpl in Hs0. rewrite Hc2 in Hs0. subst wc. by inversion Hwc. }
  destruct Hshape as (c2 & rest & Hp3 & Hc2).
  assert (Hp3_start : starts_with_sep p3 = true) by (by rewrite Hp3).
  rewrite Hp3_start. unfold normpath.
  assert (Hcount : count_initial_slashes p3 = 1%nat).
  { rewrite Hp3. unfold count_initial_slashes. simpl. by rewrite Hc2. }
  rewrite Hcount, Hs3.
  replace (String.eqb p3 "") with false by (by rewrite Hp3).
  by rewrite normalise_components.
Qed.

(** C3, as the specification states it, fails: in a world where no file
    exists the target of the sample job resolves to [/project/ref.gsd],
    which is not a file, and yet the optimiser is called with a State for
    that path and [optimize] returns normally. *)
Lemma C3_counterexample :
  sp sample_job !! "states" = Some (VList [sample_state])
  ∧ py_getitem sample_state "target_trajectory" = Ok (VStr "ref.gsd")
  ∧ abspath (getcwd sample_world) (path_join (ws sample_job) [".."; ".."; "ref.gsd"])
    = "/project/ref.gsd"
  ∧ isfile sample_world "/project/ref.gsd" = false
  ∧ (map st_traj_file ∘ states <$>
       problem_handed (new_events sample_world sample_job fresh_store))
    = Some ["/project/ref.gsd"]
  ∧ (optimize sample_world sample_job fresh_store).1 = Ok ().
Proof. split_and!; vm_compute; reflexivity. Qed.

(** C3 (amended): for every declared state entry, in order, the problem
    handed to the optimiser holds one State built from the entry's name, kT
    and alpha, the job's workspace, and the path
    [abspath(join(job.ws, "..", "..", target))]; for a workspace
    [/c1/.../cn] and a relative target of plain names this path is the
    target two directory levels above the workspace.  Whether a file exists
    at that path plays no part: the run is the same in every file system,
    and the code raises no error on account of it. *)
Theorem C3_states_resolved (w : World) (job : Job) (st : store)
    (opt : MSIBI) (args : RunnerArgs) (entries : list value) :
  ERunnerCall opt args ∈ new_events w job st →
  sp job !! "states" = Some (VList entries) →
  Forall2 (state_of w job) entries (states opt)
  ∧ (∀ wc, split_sep (ws job) = "" :: wc → Forall clean wc → (2 ≤ length wc)%nat →
       Forall2 (λ entry s,
                  ∀ t, py_getitem entry "target_trajectory" = Ok (VStr t) →
                       Forall clean (split_sep t) →
                       st_traj_file s
                       = ("/" ++ join_sep (take (length wc - 2) wc ++ split_sep t))%string)
         entries (states opt))
  ∧ (∀ isfile',
       optimize (mkWorld (getcwd w) isfile' (pot_r_before w) (optimize_pairs w)) job st
       = optimize w job st).
Proof.
  intros [Hasm _]%runner_call_inv Hstates.
  apply assemble_inv in Hasm as (_ & _ & (v & es & Hv & Hes & Hall) & _).
  rewrite Hstates in Hv. injection Hv as <-. injection Hes as <-.
  split_and!.
  - done.
  - intros wc Hws Hwc Hlen. eapply Forall2_impl; [exact Hall|].
    intros entry s (t' & Ht' & Hpath & _) t Ht Hclean.
    rewrite Ht in Ht'. injection Ht' as <-.
    rewrite Hpath. by apply two_levels_up.
  - intros isfile'. by destruct w.
Qed.

Lemma C3_states_resolved_witness :
  ∃ opt args,
    ERunnerCall opt args ∈ new_events sample_world sample_job fresh_store
    ∧ Forall2 (state_of sample_world sample_job) [sample_state] (states opt)
    ∧ states opt
      = [mkState (VStr "A") (VFloat 1 0) "/project/ref.gsd" (VFloat 1 0) sample_ws]
    ∧ ∃ s ss, states opt = s :: ss ∧ st_traj_file s = "/project/ref.gsd".
Proof.
  destruct (problem_handed (new_events sample_world sample_job fresh_store))
    as [opt|] eqn:Hopt; [|vm_compute in Hopt; discriminate].
  pose proof Hopt as Hopt'.
  apply problem_handed_Some in Hopt as [args Hin].
  assert (Hsp : sp sample_job !! "states" = Some (VList [sample_state]))
    by (vm_compute; reflexivity).
  destruct (C3_states_resolved sample_world sample_job fresh_store opt args
              [sample_state] Hin Hsp) as (Hall & Hup & _).
  exists opt, args. split_and!.
  - exact Hin.
  - exact Hall.
  - vm_compute in Hopt'. injection Hopt' as <-. reflexivity.
  - specialize (Hup ["project"; "workspace"; "0d1f2a"]).
    assert (Hres : Forall2 (λ entry s,
                ∀ t, py_getitem entry "target_trajectory" = Ok (VStr t) →
                     Forall clean (split_sep t) →
                     st_traj_file s
                     = ("/" ++ join_sep (take (length ["project"; "workspace"; "0d1f2a"] - 2)
                                           ["project"; "workspace"; "0d1f2a"]
                                         ++ split_sep t))%string)
              [sample_state] (states opt)).
    { apply Hup.
      - reflexivity.
      - repeat constructor.
      - simpl. lia. }
    inversion Hres as [|e s es ss Hs _]; subst.
    exists s, ss. split; [reflexivity|].
    rewrite (Hs "ref.gsd"); [reflexivity|reflexivity|].
    repeat constructor.
Defined.

(** * Further properties *)

(** ** Declaring and expanding the parameter space *)

Lemma od_keys_od_set {V} (k : string) (v : V) (d : list (string * V)) :
  od_keys (od_set k v d)
  = if bool_decide (k ∈ od_keys d) then od_keys d else od_keys d ++ [k].
Proof.
  induction d as [|[k' v'] d IH]; simpl; [done|].
  destruct (String.eqb_spec k k') as [->|Hne]; simpl.
  - rewrite bool_decide_eq_true_2; [done | by left].
  - rewrite IH. unfold od_keys.
    destruct (bool_decide (k ∈ map fst d)) eqn:Hin.
    + apply bool_decide_eq_true_1 in Hin.
      rewrite bool_decide_eq_true_2; [done | by right].
    + apply bool_decide_eq_false_1 in Hin.
      rewrite bool_decide_eq_false_2; [done|].
      by intros [?|?]%elem_of_cons.
Qed.

Lemma NoDup_od_set {V} (k : string) (v : V) (d : list (string * V)) :
  NoDup (od_keys d) → NoDup (od_keys (od_set k v d)).
Proof.
  intros Hnd. rewrite od_keys_od_set. case_bool_decide; [done|].
  apply NoDup_app. split_and!; [done| |apply NoDup_singleton].
  intros x Hx ->%list_elem_of_singleton. done.
Qed.

Lemma elem_of_od_keys {V} (k : string) (v : V) (d : list (string * V)) :
  (k, v) ∈ d → k ∈ od_keys d.
Proof.
  intros Hin. unfold od_keys. apply list_elem_of_In, in_map_iff.
  exists (k, v). split; [done | by apply list_elem_of_In].
Qed.

Lemma elem_of_od_set {V} (k : string) (v : V) (d : list (string * V)) k' v' :
  NoDup (od_keys d) →
  (k', v') ∈ od_set k v d ↔ (k' = k ∧ v' = v) ∨ (k' ≠ k ∧ (k', v') ∈ d).
Proof.
  induction d as [|[k0 v0] d IH]; intros Hnd; simpl.
  - rewrite list_elem_of_singleton. split.
    + intros [= -> ->]. by left.
    + intros [[-> ->]|[_ H]]; [done | by apply elem_of_nil in H].
  - simpl in Hnd. apply NoDup_cons in Hnd as [Hk0 Hnd].
    destruct (String.eqb_spec k k0) as [<-|Hne].
    + rewrite !elem_of_cons. split.
      * intros [[= -> ->]|Hin]; [by left|]. right. split; [|by right].
        intros ->. by apply Hk0, (elem_of_od_keys _ v').
      * intros [[-> ->]|[Hne [[= ? ?]|Hin]]]; [by left|done|by right].
    + rewrite !elem_of_cons, IH by done. split.
      * intros [[= -> ->]|[[-> ->]|[? ?]]].
        -- right. split; [done | by left].
        -- by left.
        -- right. split; [done | by right].
      * intros [[-> ->]|[? [[= -> ->]|?]]].
        -- right. by left.
        -- by left.
        -- right. right. done.
Qed.

(** X1: The ordered mapping built by any sequence of assignments
    [parameters[k] = v] has pairwise distinct names, its names are the
    assigned ones, and each name holds the candidates of its last
    assignment. *)
Theorem declaration_last_assignment_wins (assignments : list (string * list value)) :
  NoDup (od_keys (foldl (λ d kv, od_set kv.1 kv.2 d) [] assignments))
  ∧ (∀ k v, (k, v) ∈ foldl (λ d kv, od_set kv.1 kv.2 d) [] assignments
            ↔ ∃ pre post, assignments = pre ++ (k, v) :: post
                          ∧ k ∉ od_keys post).
Proof.
  induction assignments as [|[k0 v0] assignments [IHnd IH]] using rev_ind.
  - split; [constructor|]. intros k v. split.
    + by intros ?%elem_of_nil.
    + intros (pre & post & H & _). by destruct pre.
  - rewrite foldl_app. simpl. split; [by apply NoDup_od_set|].
    intros k v. rewrite elem_of_od_set by done. split.
    + intros [[-> ->]|[Hne Hin]].
      * exists assignments, []. split; [done | apply not_elem_of_nil].
      * apply IH in Hin as (pre & post & -> & Hpost).
        exists pre, (post ++ [(k0, v0)]). split; [by rewrite <- app_assoc|].
        unfold od_keys in *. rewrite map_app. simpl.
        intros [?|Hin]%elem_of_app; [done|].
        by apply list_elem_of_singleton in Hin.
    + intros (pre & post & Heq & Hpost).
      destruct post as [|[k1 v1] post _] using rev_ind.
      * apply app_inj_tail in Heq as [_ [= <- <-]]. by left.
      * rewrite app_comm_cons, app_assoc in Heq.
        apply app_inj_tail in Heq as [-> [= <- <-]].
        unfold od_keys in Hpost. rewrite map_app in Hpost. simpl in Hpost.
        right. split.
        -- intros ->. apply Hpost, elem_of_app. right. by left.
        -- apply IH. exists pre, post. split; [done|].
           intros Hin. apply Hpost, elem_of_app. by left.
Qed.

(** X2: The combinations come in the order of the candidate positions, the last
    parameter varying fastest: the combination that takes the i-th candidate
    of the first parameter and continues with the j-th combination of the
    remaining parameters stands at position [i * m + j], where [m] is the
    number of combinations of the remaining parameters. *)
Theorem product_order (l : list value) (ls : list (list value))
    (i j : nat) (x : value) (c : list value) :
  l !! i = Some x → product ls !! j = Some c →
  product (l :: ls) !! (i * length (product ls) + j)%nat = Some (x :: c).
Proof.
  revert i. induction l as [|a l IH]; intros i Hi Hj; [done|].
  rewrite product_cons. simpl.
  change (map (cons a) (product ls)) with (cons a <$> product ls).
  destruct i as [|i]; simpl in *.
  - injection Hi as ->. rewrite lookup_app_l.
    + by rewrite list_lookup_fmap, Hj.
    + rewrite length_fmap. by eapply lookup_lt_Some.
  - rewrite lookup_app_r; rewrite length_fmap; [|lia].
    replace (length (product ls) + i * length (product ls) + j
             - length (product ls))%nat
      with (i * length (product ls) + j)%nat by lia.
    rewrite <- product_cons. by apply IH.
Qed.

Lemma product_order_witness :
  (expand [("dt", [VFloat 1 (-3); VFloat 2 (-3)]);
           ("iterations", [VInt 10; VInt 20; VInt 30])]).2 !! 5%nat
  = Some [VFloat 2 (-3); VInt 30].
Proof.
  apply (product_order [VFloat 1 (-3); VFloat 2 (-3)] [[VInt 10; VInt 20; VInt 30]]
           1 2 (VFloat 2 (-3)) [VInt 30]); reflexivity.
Defined.



(** X4: Every statepoint [main] builds has exactly the declared parameter names
    as its keys. *)
Theorem statepoint_keys_are_declared_names (ps : list (string * list value))
    (c : list value) (k : string) :
  NoDup (od_keys ps) → c ∈ (expand ps).2 →
  is_Some (dict_zip (expand ps).1 c !! k) ↔ k ∈ (expand ps).1.
Proof.
  intros Hnd Hc. unfold expand in *. simpl in *.
  apply product_lengths in Hc. rewrite od_values_length in Hc.
  split.
  - intros Hsome. destruct (decide (k ∈ od_keys ps)) as [|Hnotin]; [done|].
    rewrite dict_zip_notin in Hsome by done. by destruct Hsome.
  - intros [i Hi]%list_elem_of_lookup_1.
    rewrite (dict_zip_lookup _ _ i) by done.
    apply lookup_lt_is_Some. rewrite Hc. by eapply lookup_lt_Some.
Qed.

Lemma statepoint_keys_are_declared_names_witness :
  is_Some (dict_zip ["dt"; "iterations"] [VFloat 2 (-3); VInt 30] !! "dt")
  ∧ ¬ is_Some (dict_zip ["dt"; "iterations"] [VFloat 2 (-3); VInt 30] !! "r_min").
Proof.
  assert (Hnd : NoDup (od_keys [("dt", [VFloat 1 (-3); VFloat 2 (-3)]);
                                ("iterations", [VInt 10; VInt 20; VInt 30])])).
  { apply (bool_decide_unpack _). by vm_compute. }
  assert (Hc : [VFloat 2 (-3); VInt 30]
               ∈ (expand [("dt", [VFloat 1 (-3); VFloat 2 (-3)]);
                          ("iterations", [VInt 10; VInt 20; VInt 30])]).2).
  { apply list_elem_of_In. vm_compute. tauto. }
  split.
  - apply (statepoint_keys_are_declared_names _ _ "dt" Hnd Hc).
    apply list_elem_of_In. vm_compute. tauto.
  - intros Hsome.
    apply (statepoint_keys_are_declared_names _ _ "r_min" Hnd Hc) in Hsome.
    apply list_elem_of_In in Hsome. vm_compute in Hsome. intuition discriminate.
Defined.

(** ** What [optimize] reads *)

(** The assembly reads the document only at [integrator_kwargs]. *)
Lemma assemble_doc_irrelevant w job (d d' : gmap string value) :
  d !! "integrator_kwargs" = d' !! "integrator_kwargs" →
  assemble w job d = assemble w job d'.
Proof.
  intros Heq. unfold assemble, make_optimizer, doc_attr. by rewrite Heq.
Qed.

Lemma make_optimizer_inv job (d : gmap string value) opt :
  make_optimizer job d = Ok opt →
  sp job !! "integrator" = Some (integrator opt)
  ∧ d !! "integrator_kwargs" = Some (integrator_kwargs opt)
  ∧ sp job !! "dt" = Some (dt opt)
  ∧ sp job !! "gsd_period" = Some (gsd_period opt)
  ∧ sp job !! "iterations" = Some (n_iterations opt)
  ∧ sp job !! "n_steps" = Some (n_steps opt).
Proof.
  unfold make_optimizer. intros H. repeat inv_bind H. injection H as <-. simpl.
  unfold doc_attr in Ha0. destruct (d !! "integrator_kwargs") eqn:Hd; [|done].
  injection Ha0 as ->.
  repeat match goal with
         | H : sp_attr _ _ = Ok _ |- _ => apply sp_attr_Ok in H
         end.
  done.
Qed.

Lemma runner_args_inv job args :
  runner_args job = Ok args →
  sp job !! "num_rdf_frames" = Some (max_frames args)
  ∧ sp job !! "potential_cutoff" = Some (rdf_cutoff args)
  ∧ sp job !! "r_min" = Some (r_min args)
  ∧ sp job !! "r_switch" = Some (r_switch args)
  ∧ sp job !! "num_rdf_points" = Some (n_rdf_points args)
  ∧ sp job !! "smooth_rdf" = Some (smooth_rdfs args)
  ∧ sp job !! "rdf_exclude_bonded" = Some (rdf_exclude_bonded args).
Proof.
  unfold runner_args. intros H. repeat inv_bind H. injection H as <-. simpl.
  repeat match goal with
         | H : sp_attr _ _ = Ok _ |- _ => apply sp_attr_Ok in H
         end.
  done.
Qed.

Lemma foldM_ext {A B} (f g : A → B → result A) (a : A) (l : list B) :
  (∀ a b, f a b = g a b) → foldM f a l = foldM g a l.
Proof.
  intros Hfg. revert a. induction l as [|b l IH]; intros a; [done|].
  simpl. rewrite Hfg. destruct (g a b); [apply IH | done].
Qed.

(** X5: [optimize] depends on the job only through its workspace and the
    statepoint fields of [fields_read]: two jobs that agree on them run
    alike.  The declared field [integrator_kwargs] is not among them. *)
Theorem optimize_reads_only (w : World) (job job' : Job) (st : store) :
  ws job' = ws job →
  (∀ a, a ∈ fields_read → sp job' !! a = sp job !! a) →
  optimize w job' st = optimize w job st.
Proof.
  intros Hws Hfields.
  assert (Hsp : ∀ a, a ∈ fields_read → sp_attr job' a = sp_attr job a).
  { intros a Ha. unfold sp_attr. by rewrite Hfields. }
  assert (Hstate : ∀ opt e, state_step w job' opt e = state_step w job opt e).
  { intros opt e. unfold state_step, traj_file_path. by rewrite Hws. }
  assert (Hpair : ∀ acc e, pair_step w job' acc e = pair_step w job acc e).
  { intros acc e. unfold pair_step, choose_potential.
    rewrite !(Hsp "initial_potential"), !(Hsp "potential_cutoff"),
      !(Hsp "head_correction")
      by (apply list_elem_of_In; simpl; tauto).
    done. }
  assert (Hmk : ∀ d, make_optimizer job' d = make_optimizer job d).
  { intros d. unfold make_optimizer.
    rewrite !(Hsp "integrator"), !(Hsp "dt"), !(Hsp "gsd_period"),
      !(Hsp "iterations"), !(Hsp "n_steps")
      by (apply list_elem_of_In; simpl; tauto).
    done. }
  assert (Hst : ∀ opt, add_states w job' opt = add_states w job opt).
  { intros opt. unfold add_states.
    rewrite (Hsp "states") by (apply list_elem_of_In; simpl; tauto).
    destruct (sp_attr job "states") as [v|]; [|done].
    cbn [mbind result_mbind result_bind].
    destruct (py_iter v) as [items|]; [|done].
    cbn [mbind result_mbind result_bind]. by apply foldM_ext. }
  assert (Hpr : ∀ opt, add_pairs w job' opt = add_pairs w job opt).
  { intros opt. unfold add_pairs.
    rewrite (Hsp "pairs") by (apply list_elem_of_In; simpl; tauto).
    destruct (sp_attr job "pairs") as [v|]; [|done].
    cbn [mbind result_mbind result_bind].
    destruct (py_iter v) as [items|]; [|done].
    cbn [mbind result_mbind result_bind].
    by rewrite (foldM_ext (pair_step w job') (pair_step w job)). }
  assert (Hbd : ∀ opt, add_bonds job' opt = add_bonds job opt).
  { intros opt. unfold add_bonds.
    by rewrite (Hsp "bonds") by (apply list_elem_of_In; simpl; tauto). }
  assert (Han : build_angles job' = build_angles job).
  { unfold build_angles.
    by rewrite (Hsp "angles") by (apply list_elem_of_In; simpl; tauto). }
  assert (Hasm : ∀ d, assemble w job' d = assemble w job d).
  { intros d. unfold assemble. rewrite Hmk, Han.
    destruct (make_optimizer job d) as [opt0|]; [|done].
    cbn [mbind result_mbind result_bind]. rewrite Hst.
    destruct (add_states w job opt0) as [opt1|]; [|done].
    cbn [mbind result_mbind result_bind]. rewrite Hpr.
    destruct (add_pairs w job opt1) as [opt2|]; [|done].
    cbn [mbind result_mbind result_bind]. by rewrite Hbd. }
  rewrite !optimize_unfold. cbn zeta. rewrite Hasm.
  assert (Hargs : runner_args job' = runner_args job).
  { unfold runner_args.
    rewrite !(Hsp "num_rdf_frames"), !(Hsp "potential_cutoff"), !(Hsp "r_min"),
      !(Hsp "r_switch"), !(Hsp "num_rdf_points"), !(Hsp "smooth_rdf"),
      !(Hsp "rdf_exclude_bonded")
      by (apply list_elem_of_In; simpl; tauto).
    done. }
  by rewrite Hargs.
Qed.

(** X6: When the optimiser is called, its hyperparameters and the arguments of
    the call are the statepoint's fields of these names ([n_iterations] is
    the field [iterations], [max_frames] is [num_rdf_frames], [rdf_cutoff]
    is [potential_cutoff], [n_rdf_points] is [num_rdf_points], [smooth_rdfs]
    is [smooth_rdf]), except for the integrator's keyword arguments, which
    are those of the job document. *)
Theorem optimiser_hyperparameters (w : World) (job : Job) (st : store)
    (opt : MSIBI) (args : RunnerArgs) :
  ERunnerCall opt args ∈ new_events w job st →
  (sp job !! "integrator" = Some (integrator opt)
   ∧ doc st !! "integrator_kwargs" = Some (integrator_kwargs opt)
   ∧ sp job !! "dt" = Some (dt opt)
   ∧ sp job !! "gsd_period" = Some (gsd_period opt)
   ∧ sp job !! "iterations" = Some (n_iterations opt)
   ∧ sp job !! "n_steps" = Some (n_steps opt))
  ∧ (sp job !! "num_rdf_frames" = Some (max_frames args)
     ∧ sp job !! "potential_cutoff" = Some (rdf_cutoff args)
     ∧ sp job !! "r_min" = Some (r_min args)
     ∧ sp job !! "r_switch" = Some (r_switch args)
     ∧ sp job !! "num_rdf_points" = Some (n_rdf_points args)
     ∧ sp job !! "smooth_rdf" = Some (smooth_rdfs args)
     ∧ sp job !! "rdf_exclude_bonded" = Some (rdf_exclude_bonded args)).
Proof.
  intros [Hasm Hargs]%runner_call_inv. split.
  - apply assemble_inv in Hasm as (Hmk & _).
    apply make_optimizer_inv in Hmk. simpl in Hmk.
    by rewrite lookup_insert_ne in Hmk.
  - by apply runner_args_inv.
Qed.

Lemma optimize_reads_only_witness :
  optimize sample_world (with_field sample_job "integrator_kwargs" (VInt 0))
    fresh_store
  = optimize sample_world sample_job fresh_store.
Proof.
  apply optimize_reads_only.
  - reflexivity.
  - intros a Ha. apply list_elem_of_In in Ha. simpl in Ha.
    repeat (destruct Ha as [<-|Ha]; [vm_compute; reflexivity|]).
    destruct Ha.
Defined.

Lemma optimiser_hyperparameters_witness :
  ∃ opt args,
    ERunnerCall opt args ∈ new_events sample_world sample_job fresh_store
    ∧ integrator_kwargs opt = VDict [("kT", VFloat 1 0)]
    ∧ doc fresh_store !! "integrator_kwargs" = Some (integrator_kwargs opt)
    ∧ sp sample_job !! "potential_cutoff" = Some (rdf_cutoff args).
Proof.
  destruct (problem_handed (new_events sample_world sample_job fresh_store))
    as [opt|] eqn:Hopt; [|vm_compute in Hopt; discriminate].
  pose proof Hopt as Hopt'.
  apply problem_handed_Some in Hopt as [args Hin].
  destruct (optimiser_hyperparameters sample_world sample_job fresh_store
              opt args Hin) as ((_ & Hkw & _) & (_ & Hcut & _)).
  exists opt, args. split_and!.
  - exact Hin.
  - vm_compute in Hopt'. injection Hopt' as <-. reflexivity.
  - exact Hkw.
  - exact Hcut.
Defined.

(** ** What [optimize] writes *)

Lemma optimize_doc_other_keys w job st (k : string) :
  k ≠ "done" → k ≠ "dr" → k ≠ "pot_r" →
  doc (optimize w job st).2 !! k = doc st !! k.
Proof.
  intros Hdone Hdr Hpot. rewrite optimize_unfold. cbn zeta.
  destruct (assemble w job _) as [opt|]; cbn [snd doc];
    [|by rewrite lookup_insert_ne].
  destruct (runner_args job) as [args|]; cbn [snd doc];
    [|by rewrite lookup_insert_ne].
  destruct (optimize_pairs w opt args) as [r|]; cbn [snd doc];
    by rewrite !lookup_insert_ne.
Qed.

(** X7: [optimize] writes the document at [done], [dr] and [pot_r] and nowhere
    else: every other key holds afterwards what it held before, and every
    write of the run is to one of the three. *)
Theorem optimize_document_frame (w : World) (job : Job) (st : store) :
  (∀ k, k ≠ "done" → k ≠ "dr" → k ≠ "pot_r" →
     doc (optimize w job st).2 !! k = doc st !! k)
  ∧ Forall (λ ev, ∀ k v, ev = ESetDoc k v → k = "done" ∨ k = "dr" ∨ k = "pot_r")
      (new_events w job st).
Proof.
  split; [intros k; apply optimize_doc_other_keys|].
  rewrite new_events_unfold. cbn zeta.
  destruct (assemble w job _) as [opt|];
    [destruct (runner_args job) as [args|];
     [destruct (optimize_pairs w opt args) as [r|]|]|];
    repeat apply List.Forall_cons; try apply List.Forall_nil;
    intros k v [=]; subst; auto.
Qed.

Lemma optimize_document_frame_witness :
  doc (optimize sample_world sample_job fresh_store).2 !! "integrator_kwargs"
  = Some (VDict [("kT", VFloat 1 0)]).
Proof.
  destruct (optimize_document_frame sample_world sample_job fresh_store)
    as [Hframe _].
  rewrite (Hframe "integrator_kwargs"); [reflexivity|discriminate..].
Defined.

(** X8: A run that raises changes the document in exactly one way,
    [done = False]: a job that was complete is IN_PROGRESS afterwards, and
    the [dr] and [pot_r] of the earlier run stay in its document. *)
Theorem optimize_raise_document (w : World) (job : Job) (st : store) (e : exn) :
  (optimize w job st).1 = Raise e →
  doc (optimize w job st).2 = <["done" := VBool false]> (doc st)
  ∧ tracker_state_of (doc (optimize w job st).2) = Some IN_PROGRESS
  ∧ doc (optimize w job st).2 !! "dr" = doc st !! "dr"
  ∧ doc (optimize w job st).2 !! "pot_r" = doc st !! "pot_r".
Proof.
  intros Hraise.
  assert (Hdoc : doc (optimize w job st).2 = <["done" := VBool false]> (doc st)).
  { revert Hraise. rewrite optimize_unfold. cbn zeta.
    destruct (assemble w job _) as [opt|]; [|done].
    destruct (runner_args job) as [args|]; [|done].
    by destruct (optimize_pairs w opt args). }
  rewrite Hdoc. split_and!.
  - done.
  - apply done_cleared_in_progress.
  - by rewrite lookup_insert_ne.
  - by rewrite lookup_insert_ne.
Qed.

Lemma optimize_raise_document_witness :
  tracker_state_of (doc complete_store) = Some COMPLETE
  ∧ tracker_state_of (doc (optimize failing_world sample_job complete_store).2)
    = Some IN_PROGRESS
  ∧ doc (optimize failing_world sample_job complete_store).2 !! "dr"
    = Some (VFloat 5 (-2)).
Proof.
  assert (Hraise : (optimize failing_world sample_job complete_store).1
                   = Raise (RunnerError "diverged"))
    by (vm_compute; reflexivity).
  destruct (optimize_raise_document failing_world sample_job complete_store _ Hraise)
    as (_ & Hstate & Hdr & _).
  split_and!.
  - vm_compute. reflexivity.
  - exact Hstate.
  - rewrite Hdr. vm_compute. reflexivity.
Defined.

(** ** Where [optimize] stops *)

Lemma optimize_assemble_raise w job st e :
  assemble w job (<["done" := VBool false]> (doc st)) = Raise e →
  (optimize w job st).1 = Raise e
  ∧ new_events w job st = [ESetDoc "done" (VBool false)].
Proof.
  intros Hasm. rewrite new_events_unfold, optimize_unfold. cbn zeta.
  by rewrite Hasm.
Qed.

(** X9: The integrator's keyword arguments are read from the job document: for
    a job whose document has no [integrator_kwargs], which is how [init.py]
    leaves it, [optimize] raises on that read, whatever the statepoint holds
    under this name, and has done nothing but clear [done]. *)
Theorem optimize_needs_document_kwargs (w : World) (job : Job) (st : store)
    (v : value) :
  sp job !! "integrator" = Some v →
  doc st !! "integrator_kwargs" = None →
  (optimize w job st).1 = Raise (AttributeError "job.doc" "integrator_kwargs")
  ∧ new_events w job st = [ESetDoc "done" (VBool false)].
Proof.
  intros Hint Hkw. apply optimize_assemble_raise.
  unfold assemble, make_optimizer, doc_attr.
  rewrite (proj2 (sp_attr_Ok job "integrator" v) Hint).
  by rewrite lookup_insert_ne, Hkw.
Qed.

Lemma optimize_needs_document_kwargs_witness :
  is_Some (sp sample_job !! "integrator_kwargs")
  ∧ (optimize sample_world sample_job (mkStore ∅ [])).1
    = Raise (AttributeError "job.doc" "integrator_kwargs").
Proof.
  split; [vm_compute; eauto|].
  apply (optimize_needs_document_kwargs sample_world sample_job (mkStore ∅ [])
           (VStr "hoomd.md.methods.NVT")); vm_compute; reflexivity.
Defined.

Lemma state_step_without_target w job opt d :
  dict_get "target_trajectory" d = None →
  state_step w job opt (VDict d) = Raise (KeyError "target_trajectory").
Proof. intros Hd. unfold state_step, py_getitem. by rewrite Hd. Qed.

(** X10: When the optimiser has been constructed and the first state entry
    has no [target_trajectory], as the placeholder [{}] of the shipped
    declaration, the run ends in the KeyError for that key, having done
    nothing but clear [done]: the path is resolved before the other keys of
    the entry are read. *)
Theorem optimize_state_without_target (w : World) (job : Job) (st : store)
    (opt0 : MSIBI) (d : list (string * value)) (rest : list value) :
  make_optimizer job (<["done" := VBool false]> (doc st)) = Ok opt0 →
  sp job !! "states" = Some (VList (VDict d :: rest)) →
  dict_get "target_trajectory" d = None →
  (optimize w job st).1 = Raise (KeyError "target_trajectory")
  ∧ new_events w job st = [ESetDoc "done" (VBool false)].
Proof.
  intros Hmk Hstates Hd. apply optimize_assemble_raise.
  unfold assemble. rewrite Hmk. cbn [mbind result_mbind result_bind].
  unfold add_states. rewrite (proj2 (sp_attr_Ok job "states" _) Hstates).
  cbn [mbind result_mbind result_bind py_iter foldM].
  by rewrite state_step_without_target.
Qed.

Lemma optimize_state_without_target_witness :
  (optimize sample_world placeholder_job fresh_store).1
  = Raise (KeyError "target_trajectory").
Proof.
  eapply (optimize_state_without_target sample_world placeholder_job fresh_store
            _ [] [VDict []; VDict []]).
  - vm_compute. reflexivity.
  - vm_compute. reflexivity.
  - reflexivity.
Defined.

(** ** Running again *)

(** X11: What a run has left in the document has no influence on a later run,
    however the earlier run ended and whatever the optimiser did in it: the
    later run has the same outcome and the same effects as it would have on
    the original document, and when it returns it leaves the same document. *)
Theorem optimize_ignores_earlier_run (w w' : World) (job : Job) (st : store) :
  (optimize w' job (optimize w job st).2).1 = (optimize w' job st).1
  ∧ new_events w' job (optimize w job st).2 = new_events w' job st
  ∧ (is_ok (optimize w' job st).1 →
     doc (optimize w' job (optimize w job st).2).2 = doc (optimize w' job st).2).
Proof.
  assert (Hasm : assemble w' job (<["done" := VBool false]> (doc (optimize w job st).2))
                 = assemble w' job (<["done" := VBool false]> (doc st))).
  { apply assemble_doc_irrelevant. rewrite !lookup_insert_ne by done.
    by apply optimize_doc_other_keys. }
  rewrite !new_events_unfold, !(optimize_unfold w'). cbn zeta. rewrite Hasm.
  destruct (assemble w' job (<["done" := VBool false]> (doc st))) as [opt|e];
    [|done].
  destruct (runner_args job) as [args|e]; [|done].
  destruct (optimize_pairs w' opt args) as [r|e]; [|done].
  cbn [fst snd doc]. split_and!; [done..|]. intros _.
  apply map_eq. intros k. rewrite !lookup_insert.
  repeat case_decide; try done. by apply optimize_doc_other_keys.
Qed.

Lemma optimize_ignores_earlier_run_witness :
  (optimize sample_world sample_job
     (optimize failing_world sample_job fresh_store).2).1 = Ok ()
  ∧ doc (optimize sample_world sample_job
           (optimize failing_world sample_job fresh_store).2).2
    = doc (optimize sample_world sample_job fresh_store).2.
Proof.
  destruct (optimize_ignores_earlier_run failing_world sample_world sample_job
              fresh_store) as (Hres & _ & Hdoc).
  split.
  - rewrite Hres. vm_compute. reflexivity.
  - apply Hdoc. vm_compute. exact I.
Defined.

(** X12: Under the post-condition [completed], once the operation has returned
    for a job it is not entered again: a second invocation leaves the store
    as it is. *)
Theorem run_operation_idempotent (w : World) (job : Job) (st : store) (b : bool) :
  (run_operation w job st).1 = Ok b →
  run_operation w job (run_operation w job st).2
  = (Ok false, (run_operation w job st).2).
Proof.
  unfold run_operation at 1 3 4.
  destruct (py_truthy (completed (doc st))) eqn:Hdone; cbn [fst snd].
  - intros _. unfold run_operation. by rewrite Hdone.
  - unfold mbind, M_mbind, M_bind. rewrite optimize_unfold. cbn zeta.
    destruct (assemble w job _) as [opt|]; [|done].
    destruct (runner_args job) as [args|]; [|done].
    destruct (optimize_pairs w opt args) as [r|]; [|done].
    intros _. unfold mret, M_mret, M_ret. cbn [fst snd].
    unfold run_operation, completed. cbn [doc].
    by rewrite lookup_insert_eq.
Qed.

Lemma run_operation_idempotent_witness :
  (run_operation sample_world sample_job fresh_store).1 = Ok true
  ∧ (run_operation sample_world sample_job
       (run_operation sample_world sample_job fresh_store).2).1 = Ok false.
Proof.
  assert (Hfirst : (run_operation sample_world sample_job fresh_store).1 = Ok true)
    by (vm_compute; reflexivity).
  split; [exact Hfirst|].
  by rewrite (run_operation_idempotent sample_world sample_job fresh_store true Hfirst).
Defined.

(** ** Pairs and their initial potentials *)

(** The optimiser as it is when the i-th pair entry is visited: all states
    added, the pairs of the earlier entries added, no bond yet. *)
Lemma foldM_pair_step_at w job opt prev entries opt' potential :
  foldM (pair_step w job) (opt, prev) entries = Ok (opt', potential) →
  ∃ ps, opt' = extend opt [] ps [] ∧ length ps = length entries
    ∧ ∀ i entry p, entries !! i = Some entry → ps !! i = Some p →
        ∃ prev_i, choose_potential w job (extend opt [] (take i ps) []) prev_i entry
                  = Ok (Some (pr_potential p)).
Proof.
  revert opt prev. induction entries as [|entry0 entries IH]; intros opt prev H;
    simpl in H.
  - injection H as <- <-. exists []. rewrite extend_nil. by split_and!.
  - inv_bind H. destruct a as [opt1 prev1].
    apply pair_step_inv in Ha as (p0 & -> & _ & -> & Hch).
    apply IH in H as (ps & -> & Hlen & Hat). exists (p0 :: ps).
    rewrite extend_extend. split_and!; [done|by simpl; rewrite Hlen|].
    intros [|i] entry p Hentry Hp; simpl in *.
    + injection Hentry as <-. injection Hp as <-.
      exists prev. by rewrite extend_nil.
    + destruct (Hat i entry p Hentry Hp) as [prev_i Hi].
      exists prev_i. by rewrite extend_extend in Hi.
Qed.

Lemma add_pairs_at w job opt opt' :
  add_pairs w job opt = Ok opt' →
  ∃ v entries ps, sp job !! "pairs" = Some v ∧ py_iter v = Ok entries
    ∧ opt' = extend opt [] ps [] ∧ length ps = length entries
    ∧ ∀ i entry p, entries !! i = Some entry → ps !! i = Some p →
        ∃ prev_i, choose_potential w job (extend opt [] (take i ps) []) prev_i entry
                  = Ok (Some (pr_potential p)).
Proof.
  unfold add_pairs. intros H.
  apply bind_Ok_inv in H as (v & Hv & H).
  apply bind_Ok_inv in H as (entries & Hentries & H).
  apply bind_Ok_inv in H as ([opt2 potential] & Hfold & H).
  injection H as <-. apply sp_attr_Ok in Hv.
  apply foldM_pair_step_at in Hfold as (ps & -> & Hlen & Hat).
  by exists v, entries, ps.
Qed.

Lemma assemble_pairs_at w job d opt :
  assemble w job d = Ok opt →
  ∃ v entries, sp job !! "pairs" = Some v ∧ py_iter v = Ok entries
    ∧ length (pairs opt) = length entries
    ∧ ∀ i entry p, entries !! i = Some entry → pairs opt !! i = Some p →
        ∃ prev_i,
          choose_potential w job
            (mkMSIBI (integrator opt) (integrator_kwargs opt) (dt opt)
               (gsd_period opt) (n_iterations opt) (n_steps opt)
               (states opt) (take i (pairs opt)) [] [])
            prev_i entry
          = Ok (Some (pr_potential p)).
Proof.
  unfold assemble. intros H.
  apply bind_Ok_inv in H as (opt0 & Hmk & H).
  apply bind_Ok_inv in H as (opt1 & Hst & H).
  apply bind_Ok_inv in H as (opt2 & Hpr & H).
  apply bind_Ok_inv in H as (opt3 & Hbd & H).
  apply bind_Ok_inv in H as (an & _ & H). injection H as <-.
  pose proof (make_optimizer_empty _ _ _ Hmk) as (Hs & Hp & Hb & Han).
  apply add_states_inv in Hst as (vs & es & ss & _ & _ & -> & _).
  apply add_pairs_at in Hpr as (v & entries & ps & Hv & Hentries & -> & Hlen & Hat).
  apply add_bonds_inv in Hbd as (vb & bs & _ & -> & _).
  exists v, entries. unfold extend in *. cbn in *.
  rewrite Hs, Hp, Hb, Han in *. cbn in *. rewrite !app_nil_r in *.
  split_and!; [done..|].
  intros i entry p Hentry Hpi. by apply Hat.
Qed.

(** X13: One Pair per pair entry, in order, with the entry's two types, and all
    with the head correction of the statepoint. *)
Theorem pairs_in_order (w : World) (job : Job) (st : store)
    (opt : MSIBI) (args : RunnerArgs) (entries : list value) :
  ERunnerCall opt args ∈ new_events w job st →
  sp job !! "pairs" = Some (VList entries) →
  Forall2 (λ entry p,
             py_getitem entry "type1" = Ok (pr_type1 p)
             ∧ py_getitem entry "type2" = Ok (pr_type2 p)
             ∧ sp job !! "head_correction" = Some (pr_head_correction_form p))
    entries (pairs opt).
Proof.
  intros [Hasm _]%runner_call_inv Hpairs.
  apply assemble_inv in Hasm as (_ & _ & _ & (v & es & Hv & Hes & Hall) & _).
  rewrite Hpairs in Hv. injection Hv as <-. injection Hes as <-.
  eapply Forall2_impl; [exact Hall|].
  intros entry p (H1 & H2 & H3 & _). by apply sp_attr_Ok in H3.
Qed.

Lemma pairs_in_order_witness :
  ∃ opt args,
    ERunnerCall opt args ∈ new_events sample_world explicit_job fresh_store
    ∧ Forall2 (λ entry p,
                 py_getitem entry "type1" = Ok (pr_type1 p)
                 ∧ py_getitem entry "type2" = Ok (pr_type2 p)
                 ∧ sp explicit_job !! "head_correction"
                   = Some (pr_head_correction_form p))
        [explicit_pair; plain_pair] (pairs opt).
Proof.
  destruct (problem_handed (new_events sample_world explicit_job fresh_store))
    as [opt|] eqn:Hopt; [|vm_compute in Hopt; discriminate].
  apply problem_handed_Some in Hopt as [args Hin].
  exists opt, args. split; [exact Hin|].
  apply (pairs_in_order sample_world explicit_job fresh_store opt args _ Hin).
  vm_compute. reflexivity.
Defined.

(** X14: Under the family "mie", every pair entry without explicit potential gets
    the Mie potential of the statepoint's [potential_cutoff] at 1.0 and 1.0,
    and the same cutoff is the [rdf_cutoff] of the optimisation. *)
Theorem mie_family_pairs (w : World) (job : Job) (st : store)
    (opt : MSIBI) (args : RunnerArgs) (entries : list value) (cutoff : value) :
  ERunnerCall opt args ∈ new_events w job st →
  sp job !! "pairs" = Some (VList entries) →
  sp job !! "initial_potential" = Some (VStr "mie") →
  sp job !! "potential_cutoff" = Some cutoff →
  rdf_cutoff args = cutoff
  ∧ Forall2 (λ entry p,
               ∀ d, entry = VDict d → dict_get "potential" d = None →
                 pr_potential p = VCall "mie" [cutoff; VFloat 1 0; VFloat 1 0])
      entries (pairs opt).
Proof.
  intros [Hasm Hargs]%runner_call_inv Hpairs Hfam Hcut. split.
  - apply runner_args_inv in Hargs as (_ & Hc & _). congruence.
  - apply assemble_inv in Hasm as (_ & _ & _ & (v & es & Hv & Hes & Hall) & _).
    rewrite Hpairs in Hv. injection Hv as <-. injection Hes as <-.
    eapply Forall2_impl; [exact Hall|].
    intros entry p (_ & _ & _ & opt' & prev & Hch) d -> Hd.
    rewrite (choose_potential_mie _ _ _ _ _ cutoff Hd Hfam Hcut) in Hch.
    by injection Hch as <-.
Qed.

Lemma mie_family_pairs_witness :
  ∃ opt args,
    ERunnerCall opt args ∈ new_events sample_world explicit_job fresh_store
    ∧ rdf_cutoff args = VFloat 5 0
    ∧ ∃ p1 p2, pairs opt = [p1; p2]
        ∧ pr_potential p2 = VCall "mie" [VFloat 5 0; VFloat 1 0; VFloat 1 0].
Proof.
  destruct (problem_handed (new_events sample_world explicit_job fresh_store))
    as [opt|] eqn:Hopt; [|vm_compute in Hopt; discriminate].
  apply problem_handed_Some in Hopt as [args Hin].
  destruct (mie_family_pairs sample_world explicit_job fresh_store opt args
              [explicit_pair; plain_pair] (VFloat 5 0) Hin)
    as [Hcut Hall]; [vm_compute; reflexivity..|].
  exists opt, args. split; [exact Hin|]. split; [exact Hcut|].
  inversion Hall as [|e1 p1 es1 ps1 _ Hrest]; subst.
  inversion Hrest as [|e2 p2 es2 ps2 Hp2 Hnil]; subst.
  inversion Hnil; subst.
  exists p1, p2. split; [reflexivity|].
  apply (Hp2 _ eq_refl). reflexivity.
Defined.

(** X15: Under the family "morse", every pair entry without explicit potential
    gets the Morse potential at 1.0 and 1.0 over the radial grid [opt.pot_r]
    that the optimiser exposes when the entry is visited, that is before the
    optimisation, with the states and the pairs of the earlier entries added. *)
Theorem morse_family_pairs (w : World) (job : Job) (st : store)
    (opt : MSIBI) (args : RunnerArgs) (entries : list value)
    (i : nat) (d : list (string * value)) (p : Pair) :
  ERunnerCall opt args ∈ new_events w job st →
  sp job !! "pairs" = Some (VList entries) →
  sp job !! "initial_potential" = Some (VStr "morse") →
  entries !! i = Some (VDict d) → dict_get "potential" d = None →
  pairs opt !! i = Some p →
  ∃ r, pot_r_before w
         (mkMSIBI (integrator opt) (integrator_kwargs opt) (dt opt)
            (gsd_period opt) (n_iterations opt) (n_steps opt)
            (states opt) (take i (pairs opt)) [] [])
       = Ok r
       ∧ pr_potential p = VCall "morse" [r; VFloat 1 0; VFloat 1 0].
Proof.
  intros [Hasm _]%runner_call_inv Hpairs Hfam Hentry Hd Hp.
  apply assemble_pairs_at in Hasm as (v & es & Hv & Hes & _ & Hat).
  rewrite Hpairs in Hv. injection Hv as <-. injection Hes as <-.
  destruct (Hat i _ p Hentry Hp) as [prev_i Hch].
  unfold choose_potential, py_has_key, sp_attr in Hch.
  rewrite Hd, Hfam in Hch. cbn in Hch.
  destruct (pot_r_before w _) as [r|]; [|done].
  exists r. split; [done|]. cbn in Hch. by injection Hch as <-.
Qed.

Lemma morse_family_pairs_witness :
  ∃ opt args p,
    ERunnerCall opt args ∈ new_events sample_world morse_job fresh_store
    ∧ pairs opt !! 2%nat = Some p
    ∧ pr_potential p = VCall "morse" [VStr "grid"; VFloat 1 0; VFloat 1 0].
Proof.
  destruct (problem_handed (new_events sample_world morse_job fresh_store))
    as [opt|] eqn:Hopt; [|vm_compute in Hopt; discriminate].
  pose proof Hopt as Hopt'.
  apply problem_handed_Some in Hopt as [args Hin].
  destruct (pairs opt !! 2%nat) as [p|] eqn:Hp.
  2: { vm_compute in Hopt'. injection Hopt' as <-. discriminate Hp. }
  destruct (morse_family_pairs sample_world morse_job fresh_store opt args
              [plain_pair; explicit_pair; plain_pair] 2
              [("type1", VStr "B"); ("type2", VStr "B")] p Hin)
    as (r & Hr & Hpot); [vm_compute; reflexivity|vm_compute; reflexivity
                        |reflexivity|reflexivity|exact Hp|].
  exists opt, args, p. split; [exact Hin|]. split; [exact Hp|].
  rewrite Hpot. simpl in Hr. by injection Hr as <-.
Defined.

(** X16: When the optimiser exposes no radial grid before the optimisation, a job
    of the family "morse" whose first pair entry has no explicit potential
    never reaches the optimisation. *)
Theorem morse_needs_grid (w : World) (job : Job) (st : store)
    (d : list (string * value)) (rest : list value) :
  (∀ opt, ¬ is_ok (pot_r_before w opt)) →
  sp job !! "pairs" = Some (VList (VDict d :: rest)) →
  sp job !! "initial_potential" = Some (VStr "morse") →
  dict_get "potential" d = None →
  (∃ e, (optimize w job st).1 = Raise e)
  ∧ ∀ opt args, ERunnerCall opt args ∉ new_events w job st.
Proof.
  intros Hgrid Hpairs Hfam Hd.
  assert (Hno : ∀ opt, assemble w job (<["done" := VBool false]> (doc st)) ≠ Ok opt).
  { intros opt Hasm.
    apply assemble_pairs_at in Hasm as (v & es & Hv & Hes & Hlen & Hat).
    rewrite Hpairs in Hv. injection Hv as <-. injection Hes as <-.
    destruct (pairs opt) as [|p ps] eqn:Hps; [done|].
    destruct (Hat 0%nat (VDict d) p eq_refl eq_refl) as [prev Hch].
    unfold choose_potential, py_has_key, sp_attr in Hch.
    rewrite Hd, Hfam in Hch. cbn in Hch.
    match type of Hch with
    | context [pot_r_before w ?o] => specialize (Hgrid o);
                                     destruct (pot_r_before w o)
    end; [by apply Hgrid | done]. }
  split.
  - rewrite optimize_unfold. cbn zeta.
    destruct (assemble w job _) as [opt|e] eqn:Hasm; [by destruct (Hno opt)|].
    by exists e.
  - intros opt args [Hasm _]%runner_call_inv. by apply (Hno opt).
Qed.

Lemma morse_needs_grid_witness :
  (optimize gridless_world morse_job fresh_store).1
  = Raise (AttributeError "opt" "pot_r").
Proof.
  destruct (morse_needs_grid gridless_world morse_job fresh_store
              [("type1", VStr "B"); ("type2", VStr "B")]
              [explicit_pair; plain_pair]) as [[e He] _].
  - intros opt. simpl. tauto.
  - vm_compute. reflexivity.
  - vm_compute. reflexivity.
  - reflexivity.
  - rewrite He. revert He. vm_compute. intros [= <-]. reflexivity.
Defined.

(** ** Bonds and angles *)

Lemma with_field_attr job k v a :
  a ≠ k → sp_attr (with_field job k v) a = sp_attr job a.
Proof. intros Hne. unfold sp_attr, with_field. simpl. by rewrite lookup_insert_ne. Qed.

Lemma with_field_attr_same job k v :
  sp_attr (with_field job k v) k = Ok v.
Proof. unfold sp_attr, with_field. simpl. by rewrite lookup_insert_eq. Qed.

(** Two jobs whose stages agree run alike; of the angles only success or
    the exception matters. *)
Lemma optimize_ext w job job' st :
  (∀ d, make_optimizer job' d = make_optimizer job d) →
  (∀ opt, add_states w job' opt = add_states w job opt) →
  (∀ opt, add_pairs w job' opt = add_pairs w job opt) →
  (∀ opt, add_bonds job' opt = add_bonds job opt) →
  (build_angles job' ≫= λ _, Ok ()) = (build_angles job ≫= λ _, Ok ()) →
  runner_args job' = runner_args job →
  optimize w job' st = optimize w job st.
Proof.
  intros Hmk Hst Hpr Hbd Han Hargs.
  assert (Hasm : ∀ d, assemble w job' d = assemble w job d).
  { intros d. unfold assemble. rewrite Hmk.
    destruct (make_optimizer job d) as [opt0|]; [|done].
    cbn [mbind result_mbind result_bind]. rewrite Hst.
    destruct (add_states w job opt0) as [opt1|]; [|done].
    cbn [mbind result_mbind result_bind]. rewrite Hpr.
    destruct (add_pairs w job opt1) as [opt2|]; [|done].
    cbn [mbind result_mbind result_bind]. rewrite Hbd.
    destruct (add_bonds job opt2) as [opt3|]; [|done].
    cbn [mbind result_mbind result_bind].
    destruct (build_angles job'), (build_angles job); simpl in *; congruence. }
  rewrite !optimize_unfold. cbn zeta. by rewrite Hasm, Hargs.
Qed.

Lemma with_field_stages w job k v :
  (k ≠ "integrator" ∧ k ≠ "dt" ∧ k ≠ "gsd_period" ∧ k ≠ "iterations"
   ∧ k ≠ "n_steps" ∧ k ≠ "states" ∧ k ≠ "pairs" ∧ k ≠ "initial_potential"
   ∧ k ≠ "potential_cutoff" ∧ k ≠ "head_correction") →
  (∀ d, make_optimizer (with_field job k v) d = make_optimizer job d)
  ∧ (∀ opt, add_states w (with_field job k v) opt = add_states w job opt)
  ∧ (∀ opt, add_pairs w (with_field job k v) opt = add_pairs w job opt).
Proof.
  intros (? & ? & ? & ? & ? & ? & ? & ? & ? & ?). split_and!.
  - intros d. unfold make_optimizer. by rewrite !with_field_attr.
  - intros opt. unfold add_states. rewrite with_field_attr by done.
    destruct (sp_attr job "states") as [x|]; [|done].
    cbn [mbind result_mbind result_bind].
    destruct (py_iter x) as [items|]; [|done].
    cbn [mbind result_mbind result_bind]. by apply foldM_ext.
  - intros opt. unfold add_pairs. rewrite with_field_attr by done.
    destruct (sp_attr job "pairs") as [x|]; [|done].
    cbn [mbind result_mbind result_bind].
    destruct (py_iter x) as [items|]; [|done].
    cbn [mbind result_mbind result_bind].
    rewrite (foldM_ext (pair_step w (with_field job k v)) (pair_step w job));
      [done|].
    intros acc e. unfold pair_step, choose_potential.
    by rewrite !with_field_attr.
Qed.

Lemma with_field_runner_args job k v :
  (k ≠ "num_rdf_frames" ∧ k ≠ "potential_cutoff" ∧ k ≠ "r_min" ∧ k ≠ "r_switch"
   ∧ k ≠ "num_rdf_points" ∧ k ≠ "smooth_rdf" ∧ k ≠ "rdf_exclude_bonded") →
  runner_args (with_field job k v) = runner_args job.
Proof.
  intros (? & ? & ? & ? & ? & ? & ?). unfold runner_args.
  by rewrite !with_field_attr.
Qed.

(** X17: The optimiser cannot tell [bonds = None] from an empty list of bonds:
    the two jobs run alike. *)
Theorem bonds_none_or_empty (w : World) (job : Job) (st : store) :
  optimize w (with_field job "bonds" (VList [])) st
  = optimize w (with_field job "bonds" VNone) st.
Proof.
  destruct (with_field_stages w job "bonds" (VList [])) as (Hmk & Hst & Hpr);
    [by split_and!|].
  destruct (with_field_stages w job "bonds" VNone) as (Hmk' & Hst' & Hpr');
    [by split_and!|].
  apply optimize_ext.
  - intros d. by rewrite Hmk, Hmk'.
  - intros opt. by rewrite Hst, Hst'.
  - intros opt. by rewrite Hpr, Hpr'.
  - intros opt. unfold add_bonds. by rewrite !with_field_attr_same.
  - unfold build_angles. by rewrite !with_field_attr.
  - rewrite !with_field_runner_args; first [done | by split_and!].
Qed.

(** X18: Angles never reach the optimiser, but they are not ignored either: when
    the angle entries can all be built, the job runs exactly as it does with
    [angles = None]. *)
Theorem angles_without_effect (w : World) (job : Job) (st : store) :
  is_ok (build_angles job) →
  optimize w job st = optimize w (with_field job "angles" VNone) st.
Proof.
  intros Hok. symmetry.
  destruct (with_field_stages w job "angles" VNone) as (Hmk & Hst & Hpr);
    [by split_and!|].
  apply optimize_ext; [done..| | |].
  - intros opt. unfold add_bonds. by rewrite with_field_attr.
  - unfold build_angles at 1. rewrite with_field_attr_same. simpl.
    by destruct (build_angles job).
  - apply with_field_runner_args. by split_and!.
Qed.

Lemma angles_without_effect_witness :
  optimize sample_world angle_job fresh_store
  = optimize sample_world (with_field angle_job "angles" VNone) fresh_store.
Proof.
  apply angles_without_effect. vm_compute. exact I.
Defined.

Lemma build_angles_without_type1 job d rest :
  sp job !! "angles" = Some (VList (VDict d :: rest)) →
  dict_get "type1" d = None →
  build_angles job = Raise (KeyError "type1").
Proof.
  intros Hangles Hd. unfold build_angles.
  rewrite (proj2 (sp_attr_Ok job "angles" _) Hangles).
  cbn [mbind result_mbind result_bind py_is_none py_iter foldM].
  assert (Hstep : angle_step None (VDict d) = Raise (KeyError "type1")).
  { unfold angle_step, make_angle, py_getitem. by rewrite Hd. }
  by rewrite Hstep.
Qed.

(** X19: An angle entry that cannot be built stops the run although no angle is
    ever handed on: with a first angle entry without [type1] the optimiser
    is never called, and once the optimiser, the states, the pairs and the
    bonds are in place the run ends in the KeyError for that key. *)
Theorem angles_are_validated (w : World) (job : Job) (st : store)
    (d : list (string * value)) (rest : list value) :
  sp job !! "angles" = Some (VList (VDict d :: rest)) →
  dict_get "type1" d = None →
  (∃ e, (optimize w job st).1 = Raise e)
  ∧ (∀ opt args, ERunnerCall opt args ∉ new_events w job st)
  ∧ (∀ opt0 opt1 opt2 opt3,
       make_optimizer job (<["done" := VBool false]> (doc st)) = Ok opt0 →
       add_states w job opt0 = Ok opt1 → add_pairs w job opt1 = Ok opt2 →
       add_bonds job opt2 = Ok opt3 →
       (optimize w job st).1 = Raise (KeyError "type1")).
Proof.
  intros Hangles Hd.
  pose proof (build_angles_without_type1 job d rest Hangles Hd) as Han.
  assert (Hno : ∀ opt, assemble w job (<["done" := VBool false]> (doc st)) ≠ Ok opt).
  { intros opt. unfold assemble. rewrite Han. intros H.
    repeat inv_bind H. done. }
  split_and!.
  - rewrite optimize_unfold. cbn zeta.
    destruct (assemble w job _) as [opt|e] eqn:Hasm; [by destruct (Hno opt)|].
    by exists e.
  - intros opt args [Hasm _]%runner_call_inv. by apply (Hno opt).
  - intros opt0 opt1 opt2 opt3 Hmk Hst Hpr Hbd.
    apply optimize_assemble_raise. unfold assemble.
    rewrite Hmk. cbn [mbind result_mbind result_bind].
    rewrite Hst. cbn [mbind result_mbind result_bind].
    rewrite Hpr. cbn [mbind result_mbind result_bind].
    rewrite Hbd. cbn [mbind result_mbind result_bind].
    by rewrite Han.
Qed.

Lemma angles_are_validated_witness :
  (optimize sample_world broken_angle_job fresh_store).1 = Raise (KeyError "type1").
Proof.
  destruct (angles_are_validated sample_world broken_angle_job fresh_store
              [("type2", VStr "B"); ("type3", VStr "A")] [])
    as (_ & _ & Hreach); [vm_compute; reflexivity | reflexivity |].
  eapply Hreach; vm_compute; reflexivity.
Defined.

(** X20: States and pairs have no "absent" value: when [states] or [pairs] is
    [None] (or anything else a loop cannot run over), the run raises and
    the optimiser is never called; only [bonds] and [angles] may be [None]. *)
Theorem states_and_pairs_must_be_iterable (w : World) (job : Job) (st : store)
    (k : string) (v : value) :
  k = "states" ∨ k = "pairs" →
  sp job !! k = Some v → ¬ is_ok (py_iter v) →
  (∃ e, (optimize w job st).1 = Raise e)
  ∧ ∀ opt args, ERunnerCall opt args ∉ new_events w job st.
Proof.
  intros Hk Hv Hiter.
  assert (Hno : ∀ opt, assemble w job (<["done" := VBool false]> (doc st)) ≠ Ok opt).
  { intros opt Hasm.
    apply assemble_inv in Hasm
      as (_ & _ & (vs & es & Hvs & Hes & _) & (vp & ep & Hvp & Hep & _) & _).
    destruct Hk as [-> | ->].
    - rewrite Hv in Hvs. injection Hvs as <-. by rewrite Hes in Hiter.
    - rewrite Hv in Hvp. injection Hvp as <-. by rewrite Hep in Hiter. }
  split.
  - rewrite optimize_unfold. cbn zeta.
    destruct (assemble w job _) as [opt|e] eqn:Hasm; [by destruct (Hno opt)|].
    by exists e.
  - intros opt args [Hasm _]%runner_call_inv. by apply (Hno opt).
Qed.

Lemma states_and_pairs_must_be_iterable_witness :
  (optimize sample_world (with_field sample_job "pairs" VNone) fresh_store).1
  = Raise (TypeError "iter").
Proof.
  destruct (states_and_pairs_must_be_iterable sample_world
              (with_field sample_job "pairs" VNone) fresh_store "pairs" VNone)
    as [[e He] _].
  - right. reflexivity.
  - vm_compute. reflexivity.
  - simpl. tauto.
  - rewrite He. revert He. vm_compute. intros [= <-]. reflexivity.
Defined.

(** ** Absolute targets *)

Lemma absolute_shape p cs :
  split_sep p = "" :: cs → cs ≠ [] → Forall clean cs →
  ∃ c2 rest, p = String "/" (String c2 rest) ∧ Ascii.eqb c2 "/" = false.
Proof.
  intros Hp Hne Hcs.
  pose proof (split_head_empty p cs Hp Hne) as Hstart.
  destruct p as [|c0 s0]; [done|]. simpl in Hstart.
  apply Ascii.eqb_eq in Hstart as ->. simpl in Hp. injection Hp as Hs0.
  destruct s0 as [|c2 s2].
  - simpl in Hs0. subst cs. by inversion Hcs.
  - exists c2, s2. split; [done|].
    destruct (Ascii.eqb c2 "/") eqn:Hc2; [|done].
    simpl in Hs0. rewrite Hc2 in Hs0. subst cs. by inversion Hcs.
Qed.

Lemma normpath_absolute_clean p cs :
  split_sep p = "" :: cs → cs ≠ [] → Forall clean cs →
  normpath p = ("/" ++ join_sep cs)%string.
Proof.
  intros Hp Hne Hcs.
  destruct (absolute_shape p cs Hp Hne Hcs) as (c2 & rest & Heq & Hc2).
  unfold normpath.
  assert (Hcount : count_initial_slashes p = 1%nat).
  { rewrite Heq. unfold count_initial_slashes. simpl. by rewrite Hc2. }
  rewrite Hcount, Hp.
  replace (String.eqb p "") with false by (by rewrite Heq).
  cbn [foldl]. change (norm_step 1 [] "") with (@nil string).
  by rewrite foldl_norm_step_clean.
Qed.

(** X21: A state entry whose target is an absolute path of plain names is
    resolved to that very path: [os.path.join] drops the workspace and the
    two [..] before an absolute component, so neither the job's workspace
    nor the working directory plays a part. *)
Theorem absolute_target_ignores_workspace (w : World) (job : Job)
    (t : string) (tc : list string) :
  split_sep t = "" :: tc → tc ≠ [] → Forall clean tc →
  traj_file_path w job (VStr t) = Ok ("/" ++ join_sep tc)%string.
Proof.
  intros Ht Hne Htc.
  pose proof (split_head_empty t tc Ht Hne) as Hstart.
  assert (Hjoin : ∀ a, path_join2 a t = t).
  { intros a. unfold path_join2. by rewrite Hstart. }
  unfold traj_file_path, abspath, path_join. simpl.
  rewrite !Hjoin, Hstart.
  by rewrite (normpath_absolute_clean t tc).
Qed.

Lemma absolute_target_ignores_workspace_witness :
  traj_file_path sample_world sample_job (VStr "/data/ref.gsd")
  = Ok "/data/ref.gsd".
Proof.
  apply (absolute_target_ignores_workspace sample_world sample_job
           "/data/ref.gsd" ["data"; "ref.gsd"]).
  - reflexivity.
  - discriminate.
  - repeat constructor.
Defined.
